(** * Automotive data pipeline: ingestion, warehouse merge, event delivery

    A shallow embedding of the three scripts of the pipeline,

    - [scripts/s3_upload_automation.py]   (class [DealershipDataProcessor]),
    - [scripts/glue_vehicle_sales_etl.py] (the Redshift load of the Glue job),
    - [scripts/lambda_redshift_to_segment.py]
                                          (class [RedshiftToSegmentProcessor]),

    followed by the properties of snapshot selection, of the keyed merge and
    of the delivery tracker.  External services (SFTP, GPG, S3, Glue, the
    Segment HTTP endpoint, Redshift) appear as explicit worlds: records of
    answers that the code consumes, together with a trace of the calls it
    makes. *)

From Stdlib Require Import ZArith List String Ascii Bool Lia Sorted.
From stdpp Require Import base gmap strings list.

Import ListNotations.
Local Open Scope Z_scope.

(* ===================================================================== *)
(** * Part I.  The embedding                                             *)
(* ===================================================================== *)

(* --------------------------------------------------------------------- *)
(** ** [hashlib.md5]                                                     *)
(* --------------------------------------------------------------------- *)

(** The message identifier of the delivery side is built from
    [hashlib.md5(...).hexdigest()].  The digest is the one of RFC 1321, on
    32-bit words kept in [Z] with the wrap-around written out. *)
Module Hashlib.

Definition mask32 : Z := 4294967295.

Definition add32 (x y : Z) : Z := Z.land (x + y) mask32.

Definition not32 (x : Z) : Z := Z.lxor x mask32.

Definition rotl32 (x : Z) (c : Z) : Z :=
  Z.lor (Z.land (Z.shiftl x c) mask32) (Z.shiftr x (32 - c)).

(** Per-round left rotations. *)
Definition shifts : list Z :=
  [ 7; 12; 17; 22;  7; 12; 17; 22;  7; 12; 17; 22;  7; 12; 17; 22;
    5;  9; 14; 20;  5;  9; 14; 20;  5;  9; 14; 20;  5;  9; 14; 20;
    4; 11; 16; 23;  4; 11; 16; 23;  4; 11; 16; 23;  4; 11; 16; 23;
    6; 10; 15; 21;  6; 10; 15; 21;  6; 10; 15; 21;  6; 10; 15; 21 ].

(** [floor (2^32 * abs (sin (i + 1)))] for [i] from 0 to 63. *)
Definition sines : list Z :=
  [ 3614090360; 3905402710; 606105819; 3250441966;
    4118548399; 1200080426; 2821735955; 4249261313;
    1770035416; 2336552879; 4294925233; 2304563134;
    1804603682; 4254626195; 2792965006; 1236535329;
    4129170786; 3225465664; 643717713; 3921069994;
    3593408605; 38016083; 3634488961; 3889429448;
    568446438; 3275163606; 4107603335; 1163531501;
    2850285829; 4243563512; 1735328473; 2368359562;
    4294588738; 2272392833; 1839030562; 4259657740;
    2763975236; 1272893353; 4139469664; 3200236656;
    681279174; 3936430074; 3572445317; 76029189;
    3654602809; 3873151461; 530742520; 3299628645;
    4096336452; 1126891415; 2878612391; 4237533241;
    1700485571; 2399980690; 4293915773; 2240044497;
    1873313359; 4264355552; 2734768916; 1309151649;
    4149444226; 3174756917; 718787259; 3951481745 ].

Record state := State { sa : Z; sb : Z; sc : Z; sd : Z }.

Definition init_state : state :=
  State 1732584193 4023233417 2562383102 271733878.

(** Little-endian word of four bytes. *)
Definition word_of_bytes (bs : list Z) : Z :=
  fold_right (fun b acc => b + 256 * acc) 0 (firstn 4 bs).

Definition bytes_of_word (w : Z) : list Z :=
  [ Z.land w 255; Z.land (Z.shiftr w 8) 255;
    Z.land (Z.shiftr w 16) 255; Z.land (Z.shiftr w 24) 255 ].

Fixpoint words_of_block (n : nat) (bs : list Z) : list Z :=
  match n with
  | O => []
  | S n' => word_of_bytes bs :: words_of_block n' (skipn 4 bs)
  end.

(** One of the 64 operations on a block: [i] is the operation's index. *)
Definition step (m : list Z) (st : state) (i : nat) : state :=
  let '(State a b c d) := st in
  let iz := Z.of_nat i in
  let '(f, g) :=
    if iz <? 16 then (Z.lor (Z.land b c) (Z.land (not32 b) d), iz)
    else if iz <? 32 then
      (Z.lor (Z.land d b) (Z.land (not32 d) c), (5 * iz + 1) mod 16)
    else if iz <? 48 then (Z.lxor b (Z.lxor c d), (3 * iz + 5) mod 16)
    else (Z.lxor c (Z.lor b (not32 d)), (7 * iz) mod 16) in
  let f' := add32 (add32 (add32 f a) (nth i sines 0)) (nth (Z.to_nat g) m 0) in
  State d (add32 b (rotl32 f' (nth i shifts 0))) b c.

Definition compress (st : state) (block : list Z) : state :=
  let m := words_of_block 16 block in
  let '(State a b c d) := fold_left (step m) (seq 0 64) st in
  State (add32 (sa st) a) (add32 (sb st) b) (add32 (sc st) c) (add32 (sd st) d).

Fixpoint le_bytes (n : nat) (x : Z) : list Z :=
  match n with
  | O => []
  | S n' => Z.land x 255 :: le_bytes n' (Z.shiftr x 8)
  end.

(** Padding: a one bit, zeros up to 56 modulo 64, the bit length on 64 bits. *)
Definition pad (msg : list Z) : list Z :=
  let len := Z.of_nat (length msg) in
  msg ++ [128] ++ repeat 0 (Z.to_nat ((55 - len) mod 64))
      ++ le_bytes 8 ((8 * len) mod 2 ^ 64).

Fixpoint blocks (n : nat) (bs : list Z) : list (list Z) :=
  match n with
  | O => []
  | S n' => firstn 64 bs :: blocks n' (skipn 64 bs)
  end.

Definition digest (msg : list Z) : list Z :=
  let p := pad msg in
  let st := fold_left compress (blocks (length p / 64)%nat p) init_state in
  bytes_of_word (sa st) ++ bytes_of_word (sb st)
    ++ bytes_of_word (sc st) ++ bytes_of_word (sd st).

Definition hex_digit (n : Z) : ascii :=
  nth (Z.to_nat n)
      [ "0"; "1"; "2"; "3"; "4"; "5"; "6"; "7";
        "8"; "9"; "a"; "b"; "c"; "d"; "e"; "f" ]%char "0"%char.

Fixpoint hex_of_bytes (bs : list Z) : string :=
  match bs with
  | [] => EmptyString
  | b :: bs' =>
      String (hex_digit (Z.shiftr b 4))
             (String (hex_digit (Z.land b 15)) (hex_of_bytes bs'))
  end.

(** The sixteen characters of a hexadecimal digest. *)
Definition is_hex_digit (c : ascii) : bool :=
  existsb (Ascii.eqb c)
    [ "0"; "1"; "2"; "3"; "4"; "5"; "6"; "7";
      "8"; "9"; "a"; "b"; "c"; "d"; "e"; "f" ]%char.

(** [s.encode()]: the bytes of the string. *)
Definition encode (s : string) : list Z :=
  map (fun c => Z.of_nat (nat_of_ascii c)) (list_ascii_of_string s).

(** [hashlib.md5(s.encode()).hexdigest()]. *)
Definition md5_hexdigest (s : string) : string :=
  hex_of_bytes (digest (encode s)).

End Hashlib.

(* --------------------------------------------------------------------- *)
(** ** Python helpers shared by the scripts                              *)
(* --------------------------------------------------------------------- *)

Module Py.

(** [s.endswith(suffix)]. *)
Definition endswith (s suffix : string) : bool :=
  let n := String.length s in
  let k := String.length suffix in
  (k <=? n)%nat && String.eqb (substring (n - k) k s) suffix.

(** [l.sort(key=..., reverse=True)] is a stable sort: elements whose keys
    are equal keep the order they had in [l], also with [reverse=True].
    [insert_desc] puts [x] in front of the first element whose key is not
    greater than the key of [x]; [sort_desc] inserts from the right, so an
    element stays before the later elements of the same key. *)
Section Sort.
Context {A : Type} (key : A -> Z).

Fixpoint insert_desc (x : A) (l : list A) : list A :=
  match l with
  | [] => [x]
  | y :: l' => if key y <=? key x then x :: l else y :: insert_desc x l'
  end.

Definition sort_desc (l : list A) : list A :=
  fold_right insert_desc [] l.

(** The first element of greatest key, by a single pass from the right:
    what the head of the sorted list is. *)
Fixpoint first_max (l : list A) : option A :=
  match l with
  | [] => None
  | x :: l' =>
      match first_max l' with
      | None => Some x
      | Some y => if key y <=? key x then Some x else Some y
      end
  end.
End Sort.

(** [l[:m]] for an integer [m], negative [m] counting from the end. *)
Definition slice_to {A : Type} (m : Z) (l : list A) : list A :=
  if 0 <=? m then firstn (Z.to_nat m) l
  else firstn (Z.to_nat (Z.of_nat (length l) + m)) l.

(** [range(0, n, step)] for [step > 0]: [0, step, 2 step, ...] below [n]. *)
Definition range_step (n step : nat) : list nat :=
  map (fun k => (k * step)%nat) (seq 0 ((n + step - 1) / step)).

End Py.

(* --------------------------------------------------------------------- *)
(** ** [s3_upload_automation.py]: class [DealershipDataProcessor]         *)
(* --------------------------------------------------------------------- *)

Module S3Upload.

(** A local path, as [pathlib.Path]: the directory and the file's name. *)
Record path := Path { parent : string; name : string }.

Definition path_str (p : path) : string :=
  (parent p ++ "/" ++ name p)%string.

Definition encrypted_path : string :=
  "/opt/dealership_automation/daily_exports/encrypted".
Definition decrypted_path : string :=
  "/opt/dealership_automation/daily_exports/decrypted".

(** Calls to the outside, in the order the run makes them. *)
Inductive event :=
| SftpConnect
| SftpListdir (dir : string)
| SftpStat (remote : string)
| SftpGet (remote : string) (local : path)
| SftpClose
| GpgDecryptFile (src dst : path)
| S3UploadFile (src : path) (key : string)
| GlueStartJobRun
| Unlink (p : path).

Inductive exn := FileNotFoundError | OtherException.

Inductive listdir_answer :=
| Listing (names : list string)
| NoSuchDirectory
| ListdirFails.

Inductive decrypt_answer := DecryptOk | DecryptNotOk | DecryptRaises.

(** What the outside answers.  [None] and [false] stand for a raised
    exception. *)
Record world := World {
  sftp_connect : bool;
  sftp_listdir : string -> listdir_answer;
  sftp_stat : string -> option Z;
  sftp_get : string -> bool;
  gpg_decrypt_file : path -> decrypt_answer;
  s3_upload_file : string -> bool;
  glue_start_job_run : bool;
  unlink : path -> bool
}.

(** Computations: the trace of calls made, and a value or an exception. *)
Inductive result (A : Type) :=
| Ret (a : A)
| Raise (e : exn).
Arguments Ret {A} a.
Arguments Raise {A} e.

Definition io (A : Type) : Type := list event * result A.

Definition ret {A} (a : A) : io A := ([], Ret a).
Definition raise {A} (e : exn) : io A := ([], Raise e).
Definition emit (ev : event) : io unit := ([ev], Ret tt).

Definition bind {A B} (m : io A) (f : A -> io B) : io B :=
  match m with
  | (t, Ret a) => let '(t', r) := f a in (t ++ t', r)
  | (t, Raise e) => (t, Raise e)
  end.

(** [try: m except Exception: h]. *)
Definition try_except {A} (m : io A) (h : exn -> io A) : io A :=
  match m with
  | (t, Ret a) => (t, Ret a)
  | (t, Raise e) => let '(t', r) := h e in (t ++ t', r)
  end.

(** [try: m finally: fin]. *)
Definition try_finally {A} (m : io A) (fin : io unit) : io A :=
  match m with
  | (t, r) =>
      match fin with
      | (t', Ret _) => (t ++ t', r)
      | (t', Raise e) => (t ++ t', Raise e)
      end
  end.

Notation "x <- m ;; k" := (bind m (fun x => k))
  (at level 100, m at next level, right associativity).
Notation "m ;;; k" := (bind m (fun _ => k))
  (at level 100, right associativity).

Definition trace {A} (m : io A) : list event := fst m.
Definition outcome {A} (m : io A) : result A := snd m.

Section Processor.
Variable w : world.
(** [self.sftp_config['base_directory']]. *)
Variable base_directory : string.
(** [re.match(filename_pattern, name)] with its three groups
    (vendor code, table name, export date), [None] when the name does not
    match [(\w+)_([A-Za-z]+)_\w+_(\d{4}-\d{2}-\d{2})]. *)
Variable re_match_filename : string -> option (string * string * string).

Definition connect_sftp : io unit :=
  emit SftpConnect ;;;
  if sftp_connect w then ret tt else raise OtherException.

(** The inner loop over [sftp.listdir(table_path)]: the names ending in
    [.csv.gpg] with their modification times, in listing order. *)
Fixpoint collect_files (table_path : string) (names : list string)
  : io (list (string * Z)) :=
  match names with
  | [] => ret []
  | filename :: rest =>
      if Py.endswith filename ".csv.gpg" then
        let remote := (table_path ++ "/" ++ filename)%string in
        emit (SftpStat remote) ;;;
        match sftp_stat w remote with
        | None => raise OtherException
        | Some st_mtime =>
            more <- collect_files table_path rest ;;
            ret ((filename, st_mtime) :: more)
        end
      else collect_files table_path rest
  end.

(** Lines 111 to 117: nothing for an empty list, otherwise the name at the
    head of the list sorted by modification time, latest first. *)
Definition select_latest (files_with_attrs : list (string * Z))
  : option string :=
  match files_with_attrs with
  | [] => None
  | _ => match Py.sort_desc snd files_with_attrs with
         | [] => None
         | latest :: _ => Some (fst latest)
         end
  end.

(** The body of the [for table in table_list] loop, before its handlers:
    the path downloaded, or [None] after the [continue] of line 113. *)
Definition download_table (table : string) : io (option path) :=
  let table_path := (base_directory ++ "/" ++ table)%string in
  emit (SftpListdir table_path) ;;;
  names <- match sftp_listdir w table_path with
           | Listing names => ret names
           | NoSuchDirectory => raise FileNotFoundError
           | ListdirFails => raise OtherException
           end ;;
  files_with_attrs <- collect_files table_path names ;;
  match select_latest files_with_attrs with
  | None => ret None
  | Some latest_file =>
      let remote_path := (table_path ++ "/" ++ latest_file)%string in
      let local_path := Path encrypted_path latest_file in
      emit (SftpGet remote_path local_path) ;;;
      if sftp_get w remote_path then ret (Some local_path)
      else raise OtherException
  end.

Fixpoint download_loop (table_list : list string) (downloaded : list path)
  : io (list path) :=
  match table_list with
  | [] => ret downloaded
  | table :: rest =>
      got <- try_except (download_table table) (fun _ => ret None) ;;
      match got with
      | Some local_path => download_loop rest (downloaded ++ [local_path])
      | None => download_loop rest downloaded
      end
  end.

Definition download_files (table_list : list string) : io (list path) :=
  connect_sftp ;;;
  try_finally (download_loop table_list []) (emit SftpClose).

(** [name.replace('.gpg', '')]. *)
Fixpoint remove_gpg (s : string) : string :=
  match s with
  | String "." (String "g" (String "p" (String "g" rest))) => remove_gpg rest
  | String c rest => String c (remove_gpg rest)
  | EmptyString => EmptyString
  end.

(** [decrypt_files], with the [gnupg.GPG] object at hand: one call of
    [decrypt_file] for each path, whose failure is logged and passed
    over. *)
Fixpoint decrypt_files (encrypted_file_paths : list path) : io (list path) :=
  match encrypted_file_paths with
  | [] => ret []
  | file_path :: rest =>
      let dst := Path decrypted_path (remove_gpg (name file_path)) in
      emit (GpgDecryptFile file_path dst) ;;;
      more <- decrypt_files rest ;;
      match gpg_decrypt_file w file_path with
      | DecryptOk => ret (dst :: more)
      | DecryptNotOk | DecryptRaises => ret more
      end
  end.

Definition s3_key (file_path : path) : option string :=
  match re_match_filename (name file_path) with
  | None => None
  | Some (_, table_name, export_date) =>
      let year := substring 0 4 export_date in
      let month := substring 5 2 export_date in
      let day := substring 8 2 export_date in
      Some ("raw-data/" ++ table_name ++ "/year=" ++ year ++ "/month="
              ++ month ++ "/day=" ++ day ++ "/" ++ name file_path)%string
  end.

Fixpoint upload_to_s3 (decrypted_file_paths : list path) : io (list string) :=
  match decrypted_file_paths with
  | [] => ret []
  | file_path :: rest =>
      match s3_key file_path with
      | None => upload_to_s3 rest
      | Some key =>
          emit (S3UploadFile file_path key) ;;;
          more <- upload_to_s3 rest ;;
          if s3_upload_file w key then ret (key :: more) else ret more
      end
  end.

Fixpoint cleanup_local_files (file_paths : list path) : io unit :=
  match file_paths with
  | [] => ret tt
  | file_path :: rest =>
      emit (Unlink file_path) ;;; cleanup_local_files rest
  end.

Definition trigger_glue_etl (uploaded_files : list string) : io unit :=
  match uploaded_files with
  | [] => ret tt
  | _ => emit GlueStartJobRun
  end.

Definition required_tables : list string :=
  [ "Customer"; "Vehicle"; "VehicleSales"; "ServiceAppointments";
    "ServiceHistory"; "PartsInventory"; "PartsSales"; "Employee";
    "InventoryVehicle"; "SpecialOrders" ]%string.

Definition process_daily_exports : io bool :=
  try_except
    (downloaded_files <- download_files required_tables ;;
     match downloaded_files with
     | [] => ret false
     | _ =>
         decrypted_files <- decrypt_files downloaded_files ;;
         match decrypted_files with
         | [] => ret false
         | _ =>
             uploaded_files <- upload_to_s3 decrypted_files ;;
             trigger_glue_etl uploaded_files ;;;
             cleanup_local_files (downloaded_files ++ decrypted_files) ;;;
             ret true
         end
     end)
    (fun _ => ret false).

(** [main]: the process exit status. *)
Definition main : list event * Z :=
  match process_daily_exports with
  | (t, Ret true) => (t, 0)
  | (t, _) => (t, 1)
  end.

(** The files a run has downloaded: none when the download phase raised. *)
Definition files_downloaded : list path :=
  match outcome (download_files required_tables) with
  | Ret l => l
  | Raise _ => []
  end.

(** The phases after the download phase. *)
Definition later_phase (ev : event) : bool :=
  match ev with
  | GpgDecryptFile _ _ | S3UploadFile _ _ | GlueStartJobRun => true
  | _ => false
  end.

End Processor.

(** A computation that makes no call of a later phase. *)
Definition download_only {A} (m : io A) : Prop :=
  Forall (fun ev => later_phase ev = false) (trace m).

(** Every call that a computation makes satisfies [P]. *)
Definition trace_all {A} (P : event -> Prop) (m : io A) : Prop :=
  Forall P (trace m).

(** What one table adds to the files downloaded: the file that its listing,
    its stats and its retrieval give, nothing when one of them fails. *)
Definition file_of_table (w : world) (base_directory table : string)
  : list path :=
  match outcome (download_table w base_directory table) with
  | Ret (Some local_path) => [local_path]
  | _ => []
  end.

(** Where the plaintext of an encrypted file goes. *)
Definition decrypted_file (file_path : path) : path :=
  Path decrypted_path (remove_gpg (name file_path)).

(** [decryption_result.ok] for the file. *)
Definition decrypts (w : world) (file_path : path) : bool :=
  match gpg_decrypt_file w file_path with
  | DecryptOk => true
  | DecryptNotOk | DecryptRaises => false
  end.

(** The files a run decrypts and the keys it uploads. *)
Definition files_decrypted (w : world) (base_directory : string) : list path :=
  map decrypted_file
      (List.filter (decrypts w) (files_downloaded w base_directory)).

Definition keys_uploaded
    (w : world) (base_directory : string)
    (re_match_filename : string -> option (string * string * string))
  : list string :=
  List.filter (s3_upload_file w)
    (omap (s3_key re_match_filename) (files_decrypted w base_directory)).

(** A retrieval of a [.csv.gpg] file of one of the tables into the
    directory of encrypted files. *)
Definition fetches_export
    (base_directory : string) (table_list : list string) (ev : event) : Prop :=
  match ev with
  | SftpGet remote local =>
      Py.endswith (name local) ".csv.gpg" = true
      /\ parent local = encrypted_path
      /\ exists table,
           In table table_list
           /\ remote = (base_directory ++ "/" ++ table ++ "/" ++ name local)%string
  | _ => True
  end.

(** A call inside the SFTP session: neither its opening nor its end, and
    no call of a later phase. *)
Definition in_session (ev : event) : Prop :=
  match ev with
  | SftpListdir _ | SftpStat _ | SftpGet _ _ => True
  | _ => False
  end.

(** A call of the phases after decryption. *)
Definition after_decryption (ev : event) : Prop :=
  match ev with
  | S3UploadFile _ _ | GlueStartJobRun | Unlink _ => True
  | _ => False
  end.

(** The rule of the specification for a non-empty listing: the latest
    modification time, and among the files of that time the greatest
    name. *)
Definition latest_then_greatest_name
    (candidates : list (string * Z)) (chosen : string) : Prop :=
  exists mtime,
    In (chosen, mtime) candidates
    /\ forall f t, In (f, t) candidates ->
         t < mtime \/ (t = mtime /\ (f <=? chosen)%string = true).

(** What the download loop does: the first file of the listing, in listing
    order, among those of the latest modification time. *)
Definition first_of_latest
    (candidates : list (string * Z)) (chosen : string) : Prop :=
  exists (i : nat) (mtime : Z),
    candidates !! i = Some (chosen, mtime)
    /\ forall (j : nat) f t, candidates !! j = Some (f, t) ->
         t <= mtime /\ (t = mtime -> (i <= j)%nat).

End S3Upload.

(* --------------------------------------------------------------------- *)
(** ** SQL conditions                                                     *)
(* --------------------------------------------------------------------- *)

(** SQL's three-valued logic: a column value is [None] for NULL, a
    condition is [None] for UNKNOWN. *)
Module Sql.

Definition eq {A} `{EqDecision A} (x y : option A) : option bool :=
  match x, y with
  | Some a, Some b => Some (bool_decide (a = b))
  | _, _ => None
  end.

Definition le (x y : option Z) : option bool :=
  match x, y with
  | Some a, Some b => Some (a <=? b)
  | _, _ => None
  end.

Definition and (p q : option bool) : option bool :=
  match p, q with
  | Some false, _ | _, Some false => Some false
  | Some true, Some true => Some true
  | _, _ => None
  end.

Definition is_not_null {A} (x : option A) : option bool :=
  Some (match x with Some _ => true | None => false end).

(** [x NOT IN (v1, ..., vn)] for literals [v1 ... vn]. *)
Definition not_in (x : option string) (vs : list string) : option bool :=
  match x with
  | Some a => Some (negb (existsb (String.eqb a) vs))
  | None => match vs with [] => Some true | _ => None end
  end.

(** A [WHERE] clause keeps the rows on which it is TRUE. *)
Definition is_true (p : option bool) : bool :=
  match p with
  | Some true => true
  | _ => false
  end.

End Sql.

(* --------------------------------------------------------------------- *)
(** ** [glue_vehicle_sales_etl.py]: the load into Redshift                *)
(* --------------------------------------------------------------------- *)

Module GlueEtl.

(** A row of [source_data.vehicle_sales].  Every column of the table is
    nullable ([None] is SQL's NULL); the four columns of the delete
    predicate and [salesdate] are named, the remaining columns are kept in
    [others].  [rowlastupdatedutc] and [salesdate] are timestamps. *)
Record row := Row {
  dealno : option string;
  custno : option string;
  vin : option string;
  rowlastupdatedutc : option Z;
  salesdate : option Z;
  others : list (option string)
}.

#[global] Instance row_eq_dec : EqDecision row.
Proof. solve_decision. Defined.

(** The [WHERE] clause of [data_cleaning_sql]. *)
Definition data_cleaning_where (r : row) : option bool :=
  Sql.and (Sql.and (Sql.is_not_null (vin r)) (Sql.is_not_null (custno r)))
          (Sql.is_not_null (salesdate r)).

Definition data_cleaning (myDataSource : list row) : list row :=
  List.filter (fun r => Sql.is_true (data_cleaning_where r)) myDataSource.

(** The [WHERE] clause of the [DELETE ... USING] of the post-actions. *)
Definition delete_where (temp sales : row) : option bool :=
  Sql.and
    (Sql.and
       (Sql.and (Sql.eq (dealno temp) (dealno sales))
                (Sql.eq (custno temp) (custno sales)))
       (Sql.eq (vin temp) (vin sales)))
    (Sql.eq (rowlastupdatedutc temp) (rowlastupdatedutc sales)).

(** The two tables of schema [source_data]; [None]: the table does not
    exist. *)
Record database := Database {
  vehicle_sales : option (list row);
  vehicle_sales_temp : option (list row)
}.

(** A statement changes the database or fails ([None]). *)
Definition statement : Type := database -> option database.

(** [CREATE TABLE IF NOT EXISTS source_data.vehicle_sales (...)]. *)
Definition create_vehicle_sales_if_not_exists : statement := fun db =>
  match vehicle_sales db with
  | Some _ => Some db
  | None => Some (Database (Some []) (vehicle_sales_temp db))
  end.

(** [DROP TABLE IF EXISTS source_data.vehicle_sales_temp]. *)
Definition drop_temp_if_exists : statement := fun db =>
  Some (Database (vehicle_sales db) None).

(** [CREATE TABLE source_data.vehicle_sales_temp AS
     SELECT * FROM source_data.vehicle_sales WHERE 1=2]. *)
Definition create_temp_as_select : statement := fun db =>
  match vehicle_sales_temp db, vehicle_sales db with
  | None, Some rows =>
      Some (Database (vehicle_sales db)
                     (Some (List.filter (fun _ => 1 =? 2) rows)))
  | _, _ => None
  end.

(** The write of the frame into ["dbtable": "source_data.vehicle_sales_temp"]:
    the rows are appended, the table is created when it is missing. *)
Definition write_frame (frame : list row) : statement := fun db =>
  match vehicle_sales_temp db with
  | Some rows => Some (Database (vehicle_sales db) (Some (rows ++ frame)))
  | None => Some (Database (vehicle_sales db) (Some frame))
  end.

(** [DELETE FROM source_data.vehicle_sales USING source_data.vehicle_sales_temp
     WHERE ...]: a row goes when the clause is TRUE for it and some row of the
    temporary table. *)
Definition delete_using_temp : statement := fun db =>
  match vehicle_sales db, vehicle_sales_temp db with
  | Some sales, Some temp =>
      Some (Database
              (Some (List.filter
                       (fun r => negb (existsb
                                         (fun t => Sql.is_true (delete_where t r))
                                         temp))
                       sales))
              (Some temp))
  | _, _ => None
  end.

(** [INSERT INTO source_data.vehicle_sales
     SELECT * FROM source_data.vehicle_sales_temp]. *)
Definition insert_select_temp : statement := fun db =>
  match vehicle_sales db, vehicle_sales_temp db with
  | Some sales, Some temp =>
      Some (Database (Some (sales ++ temp)) (Some temp))
  | _, _ => None
  end.

(** [DROP TABLE source_data.vehicle_sales_temp]. *)
Definition drop_temp : statement := fun db =>
  match vehicle_sales_temp db with
  | Some _ => Some (Database (vehicle_sales db) None)
  | None => None
  end.

Definition then_ (s1 s2 : statement) : statement := fun db =>
  match s1 db with
  | Some db' => s2 db'
  | None => None
  end.

Definition preactions : statement :=
  then_ create_vehicle_sales_if_not_exists
        (then_ drop_temp_if_exists create_temp_as_select).

(** [BEGIN; ...; END;]: the three statements take effect together or the
    load fails. *)
Definition postactions : statement :=
  then_ delete_using_temp (then_ insert_select_temp drop_temp).

(** [glueContext.write_dynamic_frame.from_options(frame=..., ...)]. *)
Definition redshift_load (frame : list row) : statement :=
  then_ preactions (then_ (write_frame frame) postactions).

(** One run of the job on the rows read from S3: the cleaning query, then
    the load.  Rows carry the column types that [ApplyMapping] gives them
    (a string that does not cast to a timestamp is NULL). *)
Definition job (vehicle_sales_raw : list row) : statement :=
  redshift_load (data_cleaning vehicle_sales_raw).

(** Successive loads. *)
Fixpoint load_all (frames : list (list row)) : statement := fun db =>
  match frames with
  | [] => Some db
  | frame :: rest => then_ (redshift_load frame) (load_all rest) db
  end.

(** The rows of the target table, none when the table is missing. *)
Definition target_rows (db : database) : list row :=
  match vehicle_sales db with
  | Some rows => rows
  | None => []
  end.

(** The composite key of a row. *)
Definition key (r : row)
  : option string * option string * option string * option Z :=
  (dealno r, custno r, vin r, rowlastupdatedutc r).

(** No component of the key is NULL. *)
Definition key_not_null (r : row) : Prop :=
  is_Some (dealno r) /\ is_Some (custno r) /\ is_Some (vin r)
  /\ is_Some (rowlastupdatedutc r).

(** The key of [r] matches the key of [i]: the four columns are equal in
    the sense of SQL's [=], which is never true of a NULL. *)
Definition key_matches (i r : row) : Prop :=
  key_not_null r /\ key i = key r.

(** The key of [r] matches the key of a row of [incoming]. *)
Definition matched_by (incoming : list row) (r : row) : Prop :=
  Exists (fun i => key_matches i r) incoming.

#[global] Instance matched_by_dec incoming r : Decision (matched_by incoming r).
Proof. unfold matched_by, key_matches, key_not_null. apply _. Defined.

(** At most one row for a composite key. *)
Definition unique_keys (rows : list row) : Prop := NoDup (key <$> rows).


End GlueEtl.

(* --------------------------------------------------------------------- *)
(** ** [lambda_redshift_to_segment.py]: class [RedshiftToSegmentProcessor] *)
(* --------------------------------------------------------------------- *)

Module Segment.

(** A row of [marketing.validated_vehicle_sales] as the cursor returns it:
    the identifying columns, the purchase date (a day number) and the other
    columns under their names. *)
Record sale := Sale {
  deal_number : option string;
  user_id : option string;
  vin : option string;
  purchase_date : option Z;
  details : list (string * option string)
}.

(** The dictionary built by [clean_and_validate_event]. *)
Record cleaned_event := Cleaned {
  ce_deal_number : string;
  ce_user_id : string;
  ce_vin : string;
  ce_purchase_date : option Z;
  ce_details : list (string * option string)
}.

(** The timestamp of a track event: noon of the purchase day, or the
    current time when the record has no purchase date. *)
Inductive timestamp :=
| NoonOf (day : Z)
| Now.

(** The track event posted to Segment. *)
Record segment_event := SegmentEvent {
  messageId : string;
  userId : string;
  event_timestamp : timestamp;
  prop_deal_number : string;
  prop_vin : string;
  properties : list (string * option string)
}.

(** The object stored under [processed_events_key]: a JSON array of
    strings, or bytes that [json.loads] rejects. *)
Inductive stored_object :=
| JsonArray (ids : list string)
| NotJson.

Inductive http_answer :=
| Status (code : Z)
| UrlError.

(** What the outside answers during one invocation. *)
Record world := World {
  (** [psycopg2.connect] succeeds. *)
  redshift_connects : bool;
  (** The content of the view. *)
  validated_vehicle_sales : list sale;
  (** [cursor.execute] succeeds. *)
  query_succeeds : bool;
  (** [datetime.now()] as a day number. *)
  today : Z;
  (** Whether the [n]-th request to S3 of the invocation raises. *)
  s3_raises : nat -> bool;
  (** The answer to the [n]-th request to Segment. *)
  segment_answers : nat -> segment_event -> http_answer
}.

(** The state an invocation works on. *)
Record state := State {
  (** The object under [processed_events_key], if any. *)
  bucket : option stored_object;
  (** Requests made to S3 so far. *)
  s3_requests : nat;
  (** Events posted to Segment so far, in order. *)
  posted : list segment_event;
  (** [self.conn] holds an open connection. *)
  conn : bool
}.

Inductive result (A : Type) :=
| Ret (a : A)
| Raise.
Arguments Ret {A} a.
Arguments Raise {A}.

Section Processor.
Variable w : world.

Definition connect_to_redshift (st : state) : bool * state :=
  if redshift_connects w
  then (true, State (bucket st) (s3_requests st) (posted st) true)
  else (false, st).

Definition close_redshift_connection (st : state) : state :=
  State (bucket st) (s3_requests st) (posted st) false.

Definition s3_request_done (st : state) : state :=
  State (bucket st) (S (s3_requests st)) (posted st) (conn st).

(** [get_processed_events]: both handlers return the empty set. *)
Definition get_processed_events (st : state) : gset string * state :=
  let st' := s3_request_done st in
  if s3_raises w (s3_requests st) then (∅, st')
  else match bucket st with
       | None => (∅, st')
       | Some NotJson => (∅, st')
       | Some (JsonArray processed) => (list_to_set processed, st')
       end.

(** [mark_events_processed]: the set is updated with the identifiers and
    written back; a failed write is logged and leaves the object as it was. *)
Definition mark_events_processed
    (event_ids : list string) (processed_events : gset string) (st : state)
  : state :=
  let processed_events := processed_events ∪ list_to_set event_ids in
  let st' := s3_request_done st in
  if s3_raises w (s3_requests st) then st'
  else State (Some (JsonArray (elements processed_events)))
             (s3_requests st') (posted st') (conn st').

(** The condition of the query.  The exclusion clause is there only for a
    non-empty set; its quoted literals (quotes doubled) denote the
    identifiers themselves. *)
Definition query_where
    (start_date end_date : Z) (processed_events : gset string) (r : sale)
  : option bool :=
  let dates :=
    Sql.and (Sql.le (Some start_date) (purchase_date r))
            (Sql.le (purchase_date r) (Some end_date)) in
  if bool_decide (processed_events = ∅) then dates
  else Sql.and dates (Sql.not_in (deal_number r) (elements processed_events)).

(** [... ORDER BY purchase_date DESC LIMIT 1000].  SQL leaves the order of
    rows of one date open; they are kept here in the order of the view. *)
Definition run_query
    (start_date end_date : Z) (processed_events : gset string)
  : list sale :=
  firstn 1000
    (Py.sort_desc (fun r => default 0 (purchase_date r))
       (List.filter
          (fun r => Sql.is_true
                      (query_where start_date end_date processed_events r))
          (validated_vehicle_sales w))).

Definition get_vehicle_sales_events
    (start_date : Z) (end_date : option Z) (exclude_processed : bool)
    (st : state)
  : result (list sale) * state :=
  if negb (conn st) then (Raise, st)
  else
    let end_date := default (today w) end_date in
    let '(processed_events, st) :=
      if exclude_processed then get_processed_events st else (∅, st) in
    if query_succeeds w
    then (Ret (run_query start_date end_date processed_events), st)
    else (Raise, st).

(** [not record.get(field)]: the field is [None] or the empty string. *)
Definition missing (field : option string) : bool :=
  match field with
  | None => true
  | Some v => String.eqb v ""
  end.

(** [clean_and_validate_event]: [None] for a record without deal number,
    user id or VIN.  The other fields are trimmed or converted to floats by
    [clean_string_value] and [clean_numeric_value]; they take no part in
    validation, identification or tracking and are carried along as they
    are. *)
Definition clean_and_validate_event (record : sale) : option cleaned_event :=
  if missing (deal_number record) || missing (user_id record)
     || missing (vin record)
  then None
  else
    match deal_number record, user_id record, vin record with
    | Some d, Some u, Some v =>
        Some (Cleaned d u v (purchase_date record) (details record))
    | _, _, _ => None
    end.

Definition generate_segment_message_id (event_data : cleaned_event) : string :=
  let unique_string :=
    ("vehicle_purchase_" ++ ce_deal_number event_data ++ "_"
                         ++ ce_vin event_data)%string in
  let message_hash := Hashlib.md5_hexdigest unique_string in
  substring 0 50 ("vp_" ++ message_hash)%string.

(** [convert_to_segment_track_event]; [None] is the answer of its exception
    handler, which typed fields never reach. *)
Definition convert_to_segment_track_event (event_data : cleaned_event)
  : option segment_event :=
  let message_id := generate_segment_message_id event_data in
  let timestamp :=
    match ce_purchase_date event_data with
    | Some day => NoonOf day
    | None => Now
    end in
  Some (SegmentEvent message_id (ce_user_id event_data) timestamp
                     (ce_deal_number event_data) (ce_vin event_data)
                     (ce_details event_data)).

(** [send_event_to_segment]: true for status 200 only. *)
Definition send_event_to_segment (event : segment_event) (st : state)
  : bool * state :=
  let st' :=
    State (bucket st) (s3_requests st) (posted st ++ [event]) (conn st) in
  match segment_answers w (length (posted st)) event with
  | Status code => (code =? 200, st')
  | UrlError => (false, st')
  end.

(** The counters of the delivery loop. *)
Record counters := Counters {
  successful_count : nat;
  failed_count : nat;
  processed_event_ids : list string
}.

(** [failed_count += 1]. *)
Definition one_more_failed (c : counters) : counters :=
  Counters (successful_count c) (S (failed_count c)) (processed_event_ids c).

(** The body of [for event_record in batch]. *)
Definition process_record (acc : counters * state) (event_record : sale)
  : counters * state :=
  let '(c, st) := acc in
  match clean_and_validate_event event_record with
  | None => (one_more_failed c, st)
  | Some cleaned_event =>
      match convert_to_segment_track_event cleaned_event with
      | None => (one_more_failed c, st)
      | Some segment_event =>
          let '(sent, st') := send_event_to_segment segment_event st in
          if sent
          then (Counters (S (successful_count c)) (failed_count c)
                         (processed_event_ids c
                            ++ [ce_deal_number cleaned_event]),
                st')
          else (one_more_failed c, st')
      end
  end.

(** [for i in range(0, len(events), batch_size)] with
    [batch = events[i:i + batch_size]], for a positive [batch_size].  The
    pause between two batches has no effect on the state. *)
Definition delivery_loop
    (batch_size : nat) (events : list sale) (acc : counters * state)
  : counters * state :=
  fold_left
    (fun acc i =>
       let batch := firstn batch_size (skipn i events) in
       fold_left process_record batch acc)
    (Py.range_step (length events) batch_size)
    acc.

(** The body returned by the handler. *)
Inductive response :=
| NoNewEvents
| ProcessingComplete
    (total_events successful failed processed_ids : nat)
| ServerError.

Definition statusCode (r : response) : Z :=
  match r with
  | NoNewEvents | ProcessingComplete _ _ _ _ => 200
  | ServerError => 500
  end.

(** The part of [process_vehicle_purchase_events] under [try].  It raises
    when the connection or the query fails, for [range] with step 0, and
    for the success rate of an empty list of events (a negative
    [max_events] can leave none). *)
Definition process_body
    (start_date : Z) (batch_size : Z) (max_events : option Z) (st : state)
  : result response * state :=
  let '(connected, st) := connect_to_redshift st in
  if negb connected then (Raise, st)
  else
    match get_vehicle_sales_events start_date None true st with
    | (Raise, st) => (Raise, st)
    | (Ret [], st) => (Ret NoNewEvents, st)
    | (Ret events, st) =>
        let events :=
          match max_events with
          | Some m =>
              if negb (m =? 0) && (m <? Z.of_nat (length events))
              then Py.slice_to m events
              else events
          | None => events
          end in
        let start := (Counters O O [], st) in
        let looped :=
          match batch_size ?= 0 with
          | Eq => None
          | Lt => Some start
          | Gt => Some (delivery_loop (Z.to_nat batch_size) events start)
          end in
        match looped with
        | None => (Raise, st)
        | Some (c, st) =>
            let st :=
              match processed_event_ids c with
              | [] => st
              | ids =>
                  let '(processed_events_set, st) := get_processed_events st in
                  mark_events_processed ids processed_events_set st
              end in
            match events with
            | [] => (Raise, st)
            | _ =>
                (Ret (ProcessingComplete
                        (length events) (successful_count c) (failed_count c)
                        (length (processed_event_ids c))),
                 st)
            end
        end
    end.

(** [process_vehicle_purchase_events]: the handler of [except] answers 500,
    [finally] closes the connection. *)
Definition process_vehicle_purchase_events
    (start_date : Z) (batch_size : Z) (max_events : option Z) (st : state)
  : response * state :=
  match process_body start_date batch_size max_events st with
  | (Ret r, st) => (r, close_redshift_connection st)
  | (Raise, st) => (ServerError, close_redshift_connection st)
  end.

(** The parameters of an invocation, as [event.get] reads them. *)
Record lambda_event := LambdaEvent {
  param_start_date : option Z;
  param_batch_size : option Z;
  param_max_events : option Z
}.

(** [lambda_handler]: the start date defaults to yesterday, the batch size
    to 100, and there is no bound on the events by default.  The
    dealership code only names the stored object, which is [bucket]. *)
Definition lambda_handler (event : lambda_event) (st : state)
  : response * state :=
  let start_date := default (today w - 1) (param_start_date event) in
  let batch_size := default 100 (param_batch_size event) in
  let max_events := param_max_events event in
  process_vehicle_purchase_events start_date batch_size max_events st.

(** The identifiers stored after an invocation. *)
Definition stored_ids (st : state) : gset string :=
  match bucket st with
  | Some (JsonArray ids) => list_to_set ids
  | _ => ∅
  end.

End Processor.

(** Between [st] and [st'] only events for records of [events] were
    posted, each carrying the deal number of its record. *)
Definition posts_from (events : list sale) (st st' : state) : Prop :=
  forall ev, In ev (posted st') ->
    In ev (posted st)
    \/ exists r, In r events /\ deal_number r = Some (prop_deal_number ev).

(** The update of the stored object at the end of an invocation: nothing
    without new identifiers, otherwise a read of the stored set and the
    write of the set with the identifiers. *)
Definition commit (w : world) (c : counters) (st : state) : state :=
  match processed_event_ids c with
  | [] => st
  | i :: ids =>
      let '(processed_events_set, st0) := get_processed_events w st in
      mark_events_processed w (i :: ids) processed_events_set st0
  end.

(** The record has its three identifying fields. *)
Definition valid_record (r : sale) : bool :=
  negb (missing (deal_number r) || missing (user_id r) || missing (vin r)).

(** The order of the rows of the query: the later purchase first. *)
Definition not_older (r1 r2 : sale) : Prop :=
  default 0 (purchase_date r2) <= default 0 (purchase_date r1).

(** The row is of the view, with a purchase date between the two days. *)
Definition in_date_range (w : world) (start_date end_date : Z) (r : sale)
  : Prop :=
  In r (validated_vehicle_sales w)
  /\ exists day, purchase_date r = Some day /\ start_date <= day <= end_date.

(** The event as it is built from a record of the query: its identifying
    fields are not empty, its message identifier is the one of its deal
    number and VIN, its timestamp is noon of a day between the two days. *)
Definition well_formed_event (start_date end_date : Z) (ev : segment_event)
  : Prop :=
  prop_deal_number ev <> ""%string
  /\ userId ev <> ""%string
  /\ prop_vin ev <> ""%string
  /\ messageId ev
     = ("vp_" ++ Hashlib.md5_hexdigest
                   ("vehicle_purchase_" ++ prop_deal_number ev ++ "_"
                                        ++ prop_vin ev))%string
  /\ exists day,
       event_timestamp ev = NoonOf day /\ start_date <= day <= end_date.

(** The identifier belongs to an event that was posted and answered with
    status 200. *)
Definition delivered (w : world) (st : state) (id : string) : Prop :=
  exists (n : nat) (ev : segment_event),
    posted st !! n = Some ev
    /\ prop_deal_number ev = id
    /\ segment_answers w n ev = Status 200.

End Segment.

(* --------------------------------------------------------------------- *)
(** ** Sample inputs                                                      *)
(* --------------------------------------------------------------------- *)

Module Samples.

(** Scenario D: every table's directory is there and holds no export. *)
Definition world_without_exports : S3Upload.world :=
  S3Upload.World true (fun _ => S3Upload.Listing []) (fun _ => None)
                 (fun _ => true) (fun _ => S3Upload.DecryptOk)
                 (fun _ => true) true (fun _ => true).

(** Scenario E: two tables have exports, the other directories are
    missing; of the two files downloaded, the one of [Vehicle] does not
    decrypt. *)
Definition world_with_exports : S3Upload.world :=
  S3Upload.World
    true
    (fun dir =>
       if String.eqb dir "daily_exports/Customer"
       then S3Upload.Listing
              [ "notes.txt"; "V_Customer_Export_2024-05-01.csv.gpg";
                "V_Customer_Export_2024-05-02.csv.gpg" ]%string
       else if String.eqb dir "daily_exports/Vehicle"
       then S3Upload.Listing [ "V_Vehicle_Export_2024-05-02.csv.gpg"%string ]
       else S3Upload.NoSuchDirectory)
    (fun remote =>
       if String.eqb remote
            "daily_exports/Customer/V_Customer_Export_2024-05-01.csv.gpg"
       then Some 100 else Some 200)
    (fun _ => true)
    (fun p =>
       if String.eqb (S3Upload.name p) "V_Vehicle_Export_2024-05-02.csv.gpg"
       then S3Upload.DecryptNotOk else S3Upload.DecryptOk)
    (fun _ => true) true (fun _ => true).

(** The same exports when GPG fails on every file. *)
Definition world_gpg_fails : S3Upload.world :=
  S3Upload.World
    true (S3Upload.sftp_listdir world_with_exports)
    (S3Upload.sftp_stat world_with_exports) (fun _ => true)
    (fun _ => S3Upload.DecryptRaises) (fun _ => true) true (fun _ => true).

(** The groups of the one name that matches the pattern here. *)
Definition match_export_name (n : string)
  : option (string * string * string) :=
  if String.eqb n "V_Customer_Export_2024-05-02.csv"
  then Some ("V", "Customer", "2024-05-02")%string
  else None.

(** Scenario B: one sale, every key column present. *)
Definition sale_1 : GlueEtl.row :=
  GlueEtl.Row (Some "1") (Some "9") (Some "V1") (Some 1704067200)
              (Some 1703980800) [Some "Retail"].

(** The same sale in a second export: same key, another total. *)
Definition sale_1_again : GlueEtl.row :=
  GlueEtl.Row (Some "1") (Some "9") (Some "V1") (Some 1704067200)
              (Some 1703980800) [Some "Wholesale"].

(** A sale whose [rowlastupdatedutc] did not cast to a timestamp. *)
Definition sale_without_update_time : GlueEtl.row :=
  GlueEtl.Row (Some "1") (Some "9") (Some "V1") None
              (Some 1703980800) [Some "Retail"].

Definition no_tables : GlueEtl.database := GlueEtl.Database None None.

(** Segment answers 200 to every request. *)
Definition always_200 (n : nat) (ev : Segment.segment_event)
  : Segment.http_answer := Segment.Status 200.

Definition sale_B : Segment.sale :=
  Segment.Sale (Some "B") (Some "U2") (Some "V2") (Some 19800) [].

(** One new sale in the view; of the requests to S3, the second raises. *)
Definition world_second_read_raises : Segment.world :=
  Segment.World true [sale_B] true 19801 (fun n => Nat.eqb n 1) always_200.

(** Before the invocation: identifier [A] is stored as delivered. *)
Definition state_A_delivered : Segment.state :=
  Segment.State (Some (Segment.JsonArray ["A"%string])) 0 [] false.

(** The same store, connected, when one request to S3 has been made: the
    next one is the request that raises. *)
Definition state_before_second_request : Segment.state :=
  Segment.State (Some (Segment.JsonArray ["A"%string])) 1 [] true.

Definition sale_A : Segment.sale :=
  Segment.Sale (Some "A") (Some "U1") (Some "V1") (Some 19799) [].

(** Scenario C: [A] is stored as delivered, the view holds [A] and [B]. *)
Definition world_A_and_B : Segment.world :=
  Segment.World true [sale_A; sale_B] true 19801 (fun _ => false) always_200.

(** One new sale in the view, no fault of S3 or of Segment. *)
Definition world_one_new_sale : Segment.world :=
  Segment.World true [sale_B] true 19801 (fun _ => false) always_200.

(** The stored array holds the message identifier of [sale_B]; the
    connection to Redshift is open. *)
Definition state_message_id_stored : Segment.state :=
  Segment.State
    (Some (Segment.JsonArray ["vp_e3011cdae2264602ca3377c85fc3087e"%string]))
    0 [] true.

(** One new sale in the view; Segment answers 500 to every request. *)
Definition world_segment_down : Segment.world :=
  Segment.World true [sale_B] true 19801 (fun _ => false)
                (fun _ _ => Segment.Status 500).

(** A record of the view without deal number. *)
Definition sale_without_deal_number : Segment.sale :=
  Segment.Sale None (Some "U3") (Some "V3") (Some 19800) [].

End Samples.

(* ===================================================================== *)
(** * Part II.  Properties                                               *)
(* ===================================================================== *)

Example md5_empty :
  Hashlib.md5_hexdigest "" = "d41d8cd98f00b204e9800998ecf8427e"%string.
Proof. vm_compute. reflexivity. Qed.

Example md5_abc :
  Hashlib.md5_hexdigest "abc" = "900150983cd24fb0d6963f7d28e17f72"%string.
Proof. vm_compute. reflexivity. Qed.

Example md5_two_blocks :
  Hashlib.md5_hexdigest
    "aaaaaaaaaaaaaaaaaaaaaaaaaaaaaaaaaaaaaaaaaaaaaaaaaaaaaaaa"
  = "3b0c8ac703f828b04c6c197006d17218"%string.
Proof. vm_compute. reflexivity. Qed.

(* --------------------------------------------------------------------- *)
(** ** The message identifier                                            *)
(* --------------------------------------------------------------------- *)

Section MessageId.
Import Segment.

Lemma hex_of_bytes_length (bs : list Z) :
  String.length (Hashlib.hex_of_bytes bs) = (2 * length bs)%nat.
Proof.
  induction bs as [| b bs IH]; simpl; [reflexivity |].
  rewrite IH. lia.
Qed.

Lemma digest_length (msg : list Z) : length (Hashlib.digest msg) = 16%nat.
Proof. unfold Hashlib.digest. reflexivity. Qed.

Lemma md5_hexdigest_length (s : string) :
  String.length (Hashlib.md5_hexdigest s) = 32%nat.
Proof.
  unfold Hashlib.md5_hexdigest.
  rewrite hex_of_bytes_length, digest_length. reflexivity.
Qed.

Lemma string_length_app (s1 s2 : string) :
  String.length (s1 +:+ s2) = (String.length s1 + String.length s2)%nat.
Proof.
  induction s1 as [| c s1 IH]; [reflexivity |].
  change (S (String.length (s1 +:+ s2))
          = S (String.length s1 + String.length s2)).
  rewrite IH. reflexivity.
Qed.

Lemma substring_length_le (n m : nat) (s : string) :
  (String.length (substring n m s) <= m)%nat.
Proof.
  revert n m. induction s as [| c s IH]; intros n m.
  - destruct n, m; simpl; lia.
  - destruct n as [| n].
    + destruct m as [| m]; simpl; [lia |]. specialize (IH O m). lia.
    + simpl. apply IH.
Qed.

Lemma substring_whole (m : nat) (s : string) :
  (String.length s <= m)%nat -> substring 0 m s = s.
Proof.
  revert m. induction s as [| c s IH]; intros m H.
  - destruct m; reflexivity.
  - destruct m as [| m]; simpl in *; [lia |].
    rewrite IH by lia. reflexivity.
Qed.

(** The identifier is the prefix [vp_] followed by the 32 hexadecimal digits
    of the digest: the cut at 50 characters removes nothing. *)
Lemma generate_segment_message_id_unfold (event_data : cleaned_event) :
  generate_segment_message_id event_data
  = ("vp_" ++ Hashlib.md5_hexdigest
                ("vehicle_purchase_" ++ ce_deal_number event_data ++ "_"
                                     ++ ce_vin event_data))%string.
Proof.
  unfold generate_segment_message_id.
  apply substring_whole.
  rewrite string_length_app, md5_hexdigest_length. simpl. lia.
Qed.

Lemma generate_segment_message_id_length (event_data : cleaned_event) :
  String.length (generate_segment_message_id event_data) = 35%nat.
Proof.
  rewrite generate_segment_message_id_unfold.
  rewrite string_length_app, md5_hexdigest_length. reflexivity.
Qed.

Example message_id_D1_V1 :
  generate_segment_message_id (Cleaned "D1" "U1" "V1" None [])
  = "vp_d556b7b1bd2c42174972bc0c03b2de60"%string.
Proof. vm_compute. reflexivity. Qed.

(** C7.  The message identifier is a function of the deal number and the
    VIN alone: two cleaned events that agree on both get the same
    identifier, whatever their other fields, the identifier has at most 50
    characters, and nothing else (no state of the run, no answer of the
    outside) enters its computation. *)
Theorem generate_segment_message_id_deterministic (e1 e2 : cleaned_event) :
  ce_deal_number e1 = ce_deal_number e2 ->
  ce_vin e1 = ce_vin e2 ->
  generate_segment_message_id e1 = generate_segment_message_id e2
  /\ (String.length (generate_segment_message_id e1) <= 50)%nat.
Proof.
  intros Hdeal Hvin. split.
  - unfold generate_segment_message_id. rewrite Hdeal, Hvin. reflexivity.
  - apply substring_length_le.
Qed.

Lemma generate_segment_message_id_deterministic_witness :
  generate_segment_message_id
    (Cleaned "1001" "U7" "1HGCM82633A004352" (Some 19800) [])
  = generate_segment_message_id
      (Cleaned "1001" "U8" "1HGCM82633A004352" None [("make", Some "Honda")])
  /\ (String.length
        (generate_segment_message_id
           (Cleaned "1001" "U7" "1HGCM82633A004352" (Some 19800%Z) []))
      <= 50)%nat.
Proof.
  apply generate_segment_message_id_deterministic; reflexivity.
Defined.

End MessageId.

(* --------------------------------------------------------------------- *)
(** ** Snapshot selection and the ingestion run                          *)
(* --------------------------------------------------------------------- *)

Section SortDesc.
Context {A : Type} (key : A -> Z).

Lemma head_insert_desc (x : A) (l : list A) :
  head (Py.insert_desc key x l)
  = match head l with
    | None => Some x
    | Some y => if key y <=? key x then Some x else Some y
    end.
Proof.
  destruct l as [| y l]; simpl; [reflexivity |].
  destruct (key y <=? key x); reflexivity.
Qed.

Lemma head_sort_desc (l : list A) :
  head (Py.sort_desc key l) = Py.first_max key l.
Proof.
  induction l as [| x l IH]; simpl; [reflexivity |].
  rewrite head_insert_desc. fold (Py.sort_desc key l). rewrite IH.
  reflexivity.
Qed.

Lemma first_max_spec (l : list A) (m : A) :
  Py.first_max key l = Some m ->
  exists i : nat,
    l !! i = Some m
    /\ forall (j : nat) y, l !! j = Some y ->
         key y <= key m /\ (key y = key m -> (i <= j)%nat).
Proof.
  revert m. induction l as [| x l IH]; intros m Hm; simpl in Hm.
  - discriminate.
  - destruct (Py.first_max key l) as [y |] eqn:Hl.
    + destruct (IH y eq_refl) as (i & Hi & Hall).
      destruct (key y <=? key x) eqn:Hle; inversion Hm; subst m.
      * apply Z.leb_le in Hle. exists O. split; [reflexivity |].
        intros [| j] z Hz; simpl in Hz.
        -- inversion Hz; subst. split; [lia | intros; lia].
        -- destruct (Hall j z Hz) as [Hzy _]. split; [lia | intros; lia].
      * apply Z.leb_gt in Hle. exists (S i). split; [exact Hi |].
        intros [| j] z Hz; simpl in Hz.
        -- inversion Hz; subst. split; [lia | intros; lia].
        -- destruct (Hall j z Hz) as [Hzy Hij].
           split; [exact Hzy | intros E; specialize (Hij E); lia].
    + inversion Hm; subst m. exists O. split; [reflexivity |].
      destruct l as [| z l]; [| simpl in Hl; destruct (Py.first_max key l) as [u |];
                                 [destruct (key u <=? key z) |]; discriminate].
      intros [| j] y Hy; simpl in Hy; [| discriminate].
      inversion Hy; subst. split; [lia | intros; lia].
Qed.

Lemma first_max_nonempty (x : A) (l : list A) :
  exists m, Py.first_max key (x :: l) = Some m.
Proof.
  simpl. destruct (Py.first_max key l) as [y |]; [| eauto].
  destruct (key y <=? key x); eauto.
Qed.

End SortDesc.

Section Ingestion.
Import S3Upload.

Lemma select_latest_first_max (files_with_attrs : list (string * Z)) :
  select_latest files_with_attrs = fst <$> Py.first_max snd files_with_attrs.
Proof.
  destruct files_with_attrs as [| c l]; [reflexivity |].
  unfold select_latest. rewrite <- head_sort_desc.
  destruct (Py.sort_desc snd (c :: l)); reflexivity.
Qed.

Lemma select_latest_spec (files_with_attrs : list (string * Z)) :
  files_with_attrs <> [] ->
  exists latest_file,
    select_latest files_with_attrs = Some latest_file
    /\ first_of_latest files_with_attrs latest_file.
Proof.
  intros Hne. destruct files_with_attrs as [| c l]; [congruence |].
  rewrite select_latest_first_max.
  destruct (first_max_nonempty snd c l) as [[f t] Hm].
  rewrite Hm. exists f. split; [reflexivity |].
  destruct (first_max_spec snd _ _ Hm) as (i & Hi & Hall).
  exists i, t. split; [exact Hi |].
  intros j f' t' Hj. exact (Hall j (f', t') Hj).
Qed.

Example scenario_A :
  select_latest [("X_2024-05-01.csv.gpg", 100); ("X_2024-05-02.csv.gpg", 200)]
  = Some "X_2024-05-02.csv.gpg"%string.
Proof. reflexivity. Qed.

(** A table whose listing holds no [.csv.gpg] file is passed over: the loop
    goes on with the next tables and the files downloaded are those of the
    other tables. *)
Lemma download_loop_skips_empty
    (w : world) (base_directory table : string) (rest : list string)
    (downloaded : list path) (names : list string) (t : list event) :
  let table_path := (base_directory +:+ "/" +:+ table)%string in
  sftp_listdir w table_path = Listing names ->
  collect_files w table_path names = (t, Ret []) ->
  download_loop w base_directory (table :: rest) downloaded
  = (SftpListdir table_path :: t
       ++ trace (download_loop w base_directory rest downloaded),
     outcome (download_loop w base_directory rest downloaded)).
Proof.
  intros table_path Hlist Hcollect.
  cbn [download_loop]. unfold download_table. fold table_path.
  rewrite Hlist. unfold bind at 3. cbn [emit ret].
  rewrite Hcollect. cbn [bind select_latest ret try_except app].
  destruct (download_loop w base_directory rest downloaded) as [t' r].
  cbn [trace outcome fst snd]. rewrite !app_nil_r. reflexivity.
Qed.

(** C4, as stated, fails on the code: of two candidates of the same
    modification time the code takes the one listed first, here the one of
    the smaller name. *)
Lemma select_latest_tie_not_greatest_name :
  select_latest [("X_A.csv.gpg", 100); ("X_B.csv.gpg", 100)]
  = Some "X_A.csv.gpg"%string
  /\ ~ latest_then_greatest_name
         [("X_A.csv.gpg", 100); ("X_B.csv.gpg", 100)] "X_A.csv.gpg".
Proof.
  split; [reflexivity |].
  intros (mtime & Hin & Hall).
  assert (mtime = 100) as ->.
  { destruct Hin as [H | [H | []]]; inversion H; reflexivity. }
  destruct (Hall "X_B.csv.gpg"%string 100) as [Hlt | [_ Hle]].
  - right; left; reflexivity.
  - lia.
  - vm_compute in Hle. discriminate.
Qed.

(** C4, amended.  For an empty candidate list nothing is selected, and the
    table is passed over without stopping the loop; for a non-empty list
    exactly one file is selected, of the greatest modification time, and
    among the candidates of that time the one that comes first in the
    listing. *)
Theorem select_latest_first_of_latest :
  select_latest [] = None
  /\ (forall files_with_attrs : list (string * Z),
        files_with_attrs <> [] ->
        exists latest_file,
          select_latest files_with_attrs = Some latest_file
          /\ first_of_latest files_with_attrs latest_file)
  /\ (forall (w : world) (base_directory table : string)
             (rest : list string) (downloaded : list path)
             (names : list string) (t : list event),
        sftp_listdir w (base_directory +:+ "/" +:+ table) = Listing names ->
        collect_files w (base_directory +:+ "/" +:+ table) names
        = (t, Ret []) ->
        outcome (download_loop w base_directory (table :: rest) downloaded)
        = outcome (download_loop w base_directory rest downloaded)).
Proof.
  split; [reflexivity |]. split; [exact select_latest_spec |].
  intros w base_directory table rest downloaded names t Hlist Hcollect.
  rewrite (download_loop_skips_empty _ _ _ _ _ _ _ Hlist Hcollect).
  reflexivity.
Qed.

Lemma select_latest_first_of_latest_witness :
  exists latest_file,
    select_latest [("X_A.csv.gpg", 100); ("X_B.csv.gpg", 100)]
    = Some latest_file
    /\ first_of_latest
         [("X_A.csv.gpg", 100); ("X_B.csv.gpg", 100)] latest_file.
Proof.
  apply (proj1 (proj2 select_latest_first_of_latest)). discriminate.
Defined.

End Ingestion.

Section IngestionRun.
Import S3Upload.

Lemma download_only_ret {A} (a : A) : download_only (ret a).
Proof. constructor. Qed.

Lemma download_only_raise {A} (e : exn) : download_only (@raise A e).
Proof. constructor. Qed.

Lemma download_only_emit (ev : event) :
  later_phase ev = false -> download_only (emit ev).
Proof. intros H. constructor; [exact H | constructor]. Qed.

Lemma download_only_bind {A B} (m : io A) (f : A -> io B) :
  download_only m -> (forall a, download_only (f a)) ->
  download_only (bind m f).
Proof.
  unfold download_only. destruct m as [t [a | e]]; simpl; intros Hm Hf.
  - specialize (Hf a). destruct (f a) as [t' r]. simpl in *.
    apply Forall_app; split; assumption.
  - exact Hm.
Qed.

Lemma download_only_try_except {A} (m : io A) (h : exn -> io A) :
  download_only m -> (forall e, download_only (h e)) ->
  download_only (try_except m h).
Proof.
  unfold download_only. destruct m as [t [a | e]]; simpl; intros Hm Hh.
  - exact Hm.
  - specialize (Hh e). destruct (h e) as [t' r]. simpl in *.
    apply Forall_app; split; assumption.
Qed.

Lemma download_only_try_finally {A} (m : io A) (fin : io unit) :
  download_only m -> download_only fin -> download_only (try_finally m fin).
Proof.
  unfold download_only. destruct m as [t r], fin as [t' [[] | e]]; simpl;
    intros Hm Hfin; apply Forall_app; split; assumption.
Qed.

Create HintDb download.

#[local] Hint Resolve download_only_ret download_only_raise
  download_only_emit download_only_bind download_only_try_except
  download_only_try_finally : download.

Variable w : world.
Variable base_directory : string.

Lemma collect_files_download_only (table_path : string) (names : list string) :
  download_only (collect_files w table_path names).
Proof.
  induction names as [| filename rest IH]; cbn [collect_files];
    [auto with download |].
  destruct (Py.endswith filename ".csv.gpg"); [| exact IH].
  apply download_only_bind; [auto with download |]. intros _.
  destruct (sftp_stat w _); auto with download.
Qed.

Lemma download_table_download_only (table : string) :
  download_only (download_table w base_directory table).
Proof.
  unfold download_table.
  apply download_only_bind; [auto with download |]. intros _.
  apply download_only_bind.
  { destruct (sftp_listdir w _); auto with download. }
  intros names. apply download_only_bind.
  { apply collect_files_download_only. }
  intros files. destruct (select_latest files); [| auto with download].
  apply download_only_bind; [auto with download |]. intros _.
  destruct (sftp_get w _); auto with download.
Qed.

Lemma download_loop_download_only
    (table_list : list string) (downloaded : list path) :
  download_only (download_loop w base_directory table_list downloaded).
Proof.
  revert downloaded.
  induction table_list as [| table rest IH]; intros downloaded;
    cbn [download_loop].
  - auto with download.
  - apply download_only_bind.
    + apply download_only_try_except;
        [apply download_table_download_only | auto with download].
    + intros [local_path |]; apply IH.
Qed.

Lemma download_files_download_only (table_list : list string) :
  download_only (download_files w base_directory table_list).
Proof.
  unfold download_files, connect_sftp.
  apply download_only_bind.
  - apply download_only_bind; [auto with download |]. intros _.
    destruct (sftp_connect w); auto with download.
  - intros _. apply download_only_try_finally;
      [apply download_loop_download_only | auto with download].
Qed.

Variable re_match_filename : string -> option (string * string * string).

(** With nothing downloaded the run is the download phase and nothing
    more. *)
Lemma process_daily_exports_nothing_downloaded :
  files_downloaded w base_directory = [] ->
  process_daily_exports w base_directory re_match_filename
  = (trace (download_files w base_directory required_tables), Ret false).
Proof.
  unfold files_downloaded, process_daily_exports, outcome, trace.
  destruct (download_files w base_directory required_tables) as [t [l | e]];
    cbn [fst snd bind try_except ret]; intros H.
  - subst l. cbn [ret]. rewrite ?app_nil_r. reflexivity.
  - rewrite ?app_nil_r. reflexivity.
Qed.

End IngestionRun.

(** C9.  When no file has been downloaded for any table, the run answers
    [False], [main] exits with status 1, and the run made no call beyond
    those of the download phase: no decryption, no upload to S3 and no
    start of the Glue job. *)
Theorem no_download_aborts_run
    (w : S3Upload.world) (base_directory : string)
    (re_match_filename : string -> option (string * string * string)) :
  S3Upload.files_downloaded w base_directory = [] ->
  let run := S3Upload.process_daily_exports w base_directory re_match_filename in
  S3Upload.outcome run = S3Upload.Ret false
  /\ snd (S3Upload.main w base_directory re_match_filename) = 1
  /\ S3Upload.trace run
     = S3Upload.trace
         (S3Upload.download_files w base_directory S3Upload.required_tables)
  /\ Forall (fun ev => S3Upload.later_phase ev = false) (S3Upload.trace run).
Proof.
  intros Hnone run. subst run. unfold S3Upload.main.
  rewrite (process_daily_exports_nothing_downloaded _ _ _ Hnone).
  repeat split. apply download_files_download_only.
Qed.

Lemma no_download_aborts_run_witness :
  let run :=
    S3Upload.process_daily_exports Samples.world_without_exports "daily_exports"
                                   (fun _ => None) in
  S3Upload.outcome run = S3Upload.Ret false
  /\ snd (S3Upload.main Samples.world_without_exports "daily_exports" (fun _ => None))
     = 1
  /\ S3Upload.trace run
     = S3Upload.trace
         (S3Upload.download_files Samples.world_without_exports "daily_exports"
                                  S3Upload.required_tables)
  /\ Forall (fun ev => S3Upload.later_phase ev = false) (S3Upload.trace run).
Proof.
  apply (no_download_aborts_run Samples.world_without_exports "daily_exports"
                                (fun _ => None)).
  reflexivity.
Defined.

(* --------------------------------------------------------------------- *)
(** ** The merge into the warehouse table                                *)
(* --------------------------------------------------------------------- *)

Section Merge.
Import GlueEtl.

Lemma is_true_and (p q : option bool) :
  Sql.is_true (Sql.and p q) = true
  <-> Sql.is_true p = true /\ Sql.is_true q = true.
Proof. destruct p as [[|] |], q as [[|] |]; simpl; intuition congruence. Qed.

Lemma is_true_eq {A} `{EqDecision A} (x y : option A) :
  Sql.is_true (Sql.eq x y) = true <-> is_Some y /\ x = y.
Proof.
  destruct x as [a |], y as [b |]; simpl.
  - destruct (bool_decide_reflect (a = b)) as [-> | Hne].
    + split; [eauto | reflexivity].
    + split; [discriminate | intros [_ E]; congruence].
  - split; [discriminate | intros [[? ?] _]; discriminate].
  - split; [discriminate | intros [_ ?]; discriminate].
  - split; [discriminate | intros [[? ?] _]; discriminate].
Qed.

(** The clause of the [DELETE] is TRUE exactly when the keys match. *)
Lemma delete_where_true (t r : row) :
  Sql.is_true (delete_where t r) = true <-> key_matches t r.
Proof.
  unfold delete_where, key_matches, key_not_null, key.
  rewrite !is_true_and, !is_true_eq.
  split.
  - intros [[[[? ->] [? ->]] [? ->]] [? ->]]. auto.
  - intros [(? & ? & ? & ?) E]. inversion E. repeat split; congruence.
Qed.

Lemma existsb_delete_where (temp : list row) (r : row) :
  existsb (fun t => Sql.is_true (delete_where t r)) temp = true
  <-> matched_by temp r.
Proof.
  unfold matched_by. rewrite existsb_exists, Exists_exists.
  split; intros (t & Hin & Ht); exists t;
    (split; [apply list_elem_of_In; exact Hin | apply delete_where_true; exact Ht]).
Qed.

Lemma delete_keeps_unmatched (temp sales : list row) :
  List.filter
    (fun r => negb (existsb (fun t => Sql.is_true (delete_where t r)) temp))
    sales
  = filter (fun r => ~ matched_by temp r) sales.
Proof.
  induction sales as [| r sales IH]; [reflexivity |].
  cbn [List.filter]. rewrite filter_cons, IH.
  destruct (existsb _ temp) eqn:E; cbn [negb].
  - apply existsb_delete_where in E. rewrite decide_False; [reflexivity | tauto].
  - rewrite decide_True; [reflexivity |].
    intros Hm. apply existsb_delete_where in Hm. congruence.
Qed.

Lemma filter_never {A} (l : list A) : List.filter (fun _ => 1 =? 2) l = [].
Proof. induction l; [reflexivity | exact IHl]. Qed.

(** The load as one equation. *)
Lemma redshift_load_result (frame : list row) (db : database) :
  redshift_load frame db
  = Some (Database
            (Some (filter (fun r => ~ matched_by frame r) (target_rows db)
                     ++ frame))
            None).
Proof.
  unfold redshift_load, preactions, postactions, then_,
    create_vehicle_sales_if_not_exists, drop_temp_if_exists,
    create_temp_as_select, write_frame, delete_using_temp,
    insert_select_temp, drop_temp, target_rows.
  destruct db as [[sales |] temp]; cbn.
  - rewrite filter_never. cbn. rewrite delete_keeps_unmatched. reflexivity.
  - reflexivity.
Qed.

(** C1.  Whatever the two tables hold before (the target table may be
    missing, a temporary table may be left over), the load succeeds, the
    temporary table is gone afterwards, and the target table holds its
    former rows except those whose key matches the key of an incoming row,
    followed by the incoming rows. *)
Theorem redshift_load_keyed_upsert (frame : list row) (db : database) :
  exists db',
    redshift_load frame db = Some db'
    /\ is_Some (vehicle_sales db')
    /\ vehicle_sales_temp db' = None
    /\ target_rows db'
       = filter (fun r => ~ matched_by frame r) (target_rows db) ++ frame.
Proof.
  rewrite redshift_load_result. eexists. split; [reflexivity |].
  cbn. split; [eauto | split; reflexivity].
Qed.

(** The content as a bag: a row is there as often as it is among the
    incoming rows, plus as often as it was before when no incoming key
    matches its key. *)
Lemma redshift_load_elem_of (frame : list row) (db db' : database) (r : row) :
  redshift_load frame db = Some db' ->
  r ∈ target_rows db'
  <-> (r ∈ target_rows db /\ ~ matched_by frame r) \/ r ∈ frame.
Proof.
  rewrite redshift_load_result. intros [= <-]. cbn.
  rewrite elem_of_app, list_elem_of_filter. tauto.
Qed.

Lemma key_matches_refl (r : row) : key_not_null r -> key_matches r r.
Proof. intros H. split; [exact H | reflexivity]. Qed.

Lemma filter_unmatched_self (frame : list row) :
  Forall key_not_null frame ->
  filter (fun r => ~ matched_by frame r) frame = [].
Proof.
  intros Hnn.
  assert (forall l, l ⊆ frame -> filter (fun r => ~ matched_by frame r) l = [])
    as Hall.
  { induction l as [| r l IH]; intros Hsub; [reflexivity |].
    rewrite filter_cons, decide_False.
    - apply IH. intros x Hx. apply Hsub. right. exact Hx.
    - intros Hnm. apply Hnm, Exists_exists. exists r.
      assert (r ∈ frame) as Hin by (apply Hsub; left).
      split; [exact Hin |]. apply key_matches_refl.
      rewrite Forall_forall in Hnn. apply Hnn, Hin. }
  apply Hall. reflexivity.
Qed.

(** X6.  Loading a frame a second time changes nothing when no key column
    of the frame is NULL: the rows of the first load are deleted and
    inserted again. *)
Lemma redshift_load_twice (frame : list row) (db db1 : database) :
  Forall key_not_null frame ->
  redshift_load frame db = Some db1 ->
  redshift_load frame db1 = Some db1.
Proof.
  intros Hnn. rewrite !redshift_load_result. intros [= <-]. cbn.
  rewrite filter_app, filter_unmatched_self by exact Hnn.
  rewrite app_nil_r, list_filter_filter_l by tauto. reflexivity.
Qed.

Example scenario_B :
  redshift_load [Samples.sale_1] Samples.no_tables
  = Some (Database (Some [Samples.sale_1]) None)
  /\ redshift_load [Samples.sale_1] (Database (Some [Samples.sale_1]) None)
     = Some (Database (Some [Samples.sale_1]) None).
Proof. split; vm_compute; reflexivity. Qed.

(** C2 fails on the code for a row that passes the cleaning query with a
    NULL key column: the second run of the job finds no match for it and
    inserts it once more. *)
Lemma job_rerun_duplicates_null_key :
  let raw := [Samples.sale_without_update_time] in
  exists db1 db2,
    job raw Samples.no_tables = Some db1
    /\ job raw db1 = Some db2
    /\ target_rows db1 = [Samples.sale_without_update_time]
    /\ target_rows db2
       = [Samples.sale_without_update_time; Samples.sale_without_update_time].
Proof.
  eexists _, _. split; [vm_compute; reflexivity |].
  split; [vm_compute; reflexivity |]. split; reflexivity.
Qed.

Lemma key_not_null_same_key (i r : row) :
  key i = key r -> key_not_null i -> key_not_null r.
Proof.
  unfold key, key_not_null. intros E (? & ? & ? & ?).
  inversion E. repeat split; congruence.
Qed.

Lemma redshift_load_preserves_unique_keys (frame : list row) (db : database) :
  unique_keys (target_rows db) ->
  unique_keys frame ->
  Forall key_not_null frame ->
  exists db',
    redshift_load frame db = Some db' /\ unique_keys (target_rows db').
Proof.
  intros Hold Hnew Hnn. rewrite redshift_load_result.
  eexists. split; [reflexivity |]. cbn. unfold unique_keys in *.
  rewrite fmap_app. apply NoDup_app. split; [| split].
  - eapply sublist_NoDup; [exact Hold |].
    apply fmap_sublist, sublist_filter.
  - intros k Hkept Hframe.
    apply list_elem_of_fmap in Hkept as (r & -> & Hr).
    apply list_elem_of_fmap in Hframe as (i & Hki & Hi).
    apply list_elem_of_filter in Hr as [Hunmatched _].
    apply Hunmatched, Exists_exists. exists i. split; [exact Hi |].
    split; [| congruence].
    apply (key_not_null_same_key i); [congruence |].
    rewrite Forall_forall in Hnn. apply Hnn, Hi.
  - exact Hnew.
Qed.

(** C3, as stated, fails on the code: an incoming batch that holds the
    same key twice puts two rows of that key into the table. *)
Lemma load_repeated_key_breaks_uniqueness :
  exists db',
    load_all [[Samples.sale_1; Samples.sale_1_again]] Samples.no_tables
    = Some db'
    /\ unique_keys (target_rows Samples.no_tables)
    /\ ~ unique_keys (target_rows db').
Proof.
  eexists. split; [vm_compute; reflexivity |]. split; [constructor |].
  cbn. unfold unique_keys. cbn. intros Hnodup.
  apply NoDup_cons in Hnodup as [Hnotin _]. apply Hnotin. left.
Qed.

(** C3, amended.  Starting from a table with at most one row per composite
    key, any sequence of loads whose batches each hold every key at most
    once, with no NULL key column, succeeds and leaves a table with at most
    one row per composite key. *)
Theorem load_all_preserves_unique_keys
    (frames : list (list row)) (db : database) :
  unique_keys (target_rows db) ->
  Forall (fun frame => unique_keys frame /\ Forall key_not_null frame) frames ->
  exists db', load_all frames db = Some db' /\ unique_keys (target_rows db').
Proof.
  revert db. induction frames as [| frame rest IH]; intros db Hdb Hframes.
  - exists db. split; [reflexivity | exact Hdb].
  - apply Forall_cons in Hframes as [[Hunique Hnn] Hrest].
    destruct (redshift_load_preserves_unique_keys frame db Hdb Hunique Hnn)
      as (db1 & Hload & Hdb1).
    destruct (IH db1 Hdb1 Hrest) as (db' & Hall & Hdb').
    exists db'. split; [| exact Hdb'].
    cbn [load_all]. unfold then_. rewrite Hload. exact Hall.
Qed.

Lemma load_all_preserves_unique_keys_witness :
  exists db',
    load_all [[Samples.sale_1]; [Samples.sale_1_again]] Samples.no_tables
    = Some db'
    /\ unique_keys (target_rows db').
Proof.
  apply load_all_preserves_unique_keys.
  - constructor.
  - repeat constructor; vm_compute; eauto; set_solver.
Defined.

End Merge.

(* --------------------------------------------------------------------- *)
(** ** The delivered set and the delivery candidates                     *)
(* --------------------------------------------------------------------- *)

Section DeliveredSet.
Import Segment.
Variable w : world.

Lemma insert_desc_In {A} (key : A -> Z) (x y : A) (l : list A) :
  In x (Py.insert_desc key y l) <-> x = y \/ In x l.
Proof.
  induction l as [| z l IH]; simpl; [intuition congruence |].
  destruct (key z <=? key y); simpl; [intuition congruence |].
  rewrite IH. intuition congruence.
Qed.

Lemma sort_desc_In {A} (key : A -> Z) (x : A) (l : list A) :
  In x (Py.sort_desc key l) <-> In x l.
Proof.
  induction l as [| y l IH]; simpl; [tauto |].
  rewrite insert_desc_In. fold (Py.sort_desc key l). rewrite IH.
  intuition congruence.
Qed.

Lemma In_firstn {A} (n : nat) (x : A) (l : list A) :
  In x (firstn n l) -> In x l.
Proof.
  intros H. rewrite <- (firstn_skipn n l). apply in_or_app. left. exact H.
Qed.

(** Every row the query returns satisfies its condition. *)
Lemma run_query_In
    (start_date end_date : Z) (processed_events : gset string) (r : sale) :
  In r (run_query w start_date end_date processed_events) ->
  In r (validated_vehicle_sales w)
  /\ Sql.is_true (query_where start_date end_date processed_events r) = true.
Proof.
  unfold run_query. intros H.
  apply In_firstn, sort_desc_In, filter_In in H. exact H.
Qed.

Lemma not_in_true (d : string) (vs : list string) :
  Sql.is_true (Sql.not_in (Some d) vs) = true -> ~ In d vs.
Proof.
  simpl. destruct (existsb (String.eqb d) vs) eqn:E; [discriminate |].
  intros _ Hin.
  assert (existsb (String.eqb d) vs = true) as Htrue.
  { apply existsb_exists. exists d. split; [exact Hin | apply String.eqb_refl]. }
  congruence.
Qed.

Lemma query_where_excludes
    (start_date end_date : Z) (processed_events : gset string)
    (r : sale) (d : string) :
  Sql.is_true (query_where start_date end_date processed_events r) = true ->
  deal_number r = Some d ->
  d ∉ processed_events.
Proof.
  unfold query_where. intros Htrue Hd.
  destruct (bool_decide_reflect (processed_events = ∅)) as [-> | _].
  - apply not_elem_of_empty.
  - apply is_true_and in Htrue as [_ Hnot]. rewrite Hd in Hnot.
    apply not_in_true in Hnot. intros Hin. apply Hnot.
    apply list_elem_of_In, elem_of_elements, Hin.
Qed.

(** With nothing to exclude, the condition is the one on the dates. *)
Lemma query_where_nothing_processed (start_date end_date : Z) (r : sale) :
  query_where start_date end_date ∅ r
  = Sql.and (Sql.le (Some start_date) (purchase_date r))
            (Sql.le (purchase_date r) (Some end_date)).
Proof.
  unfold query_where. rewrite bool_decide_eq_true_2; reflexivity.
Qed.

Lemma query_where_nothing_processed_true
    (start_date end_date : Z) (r : sale) :
  Sql.is_true (query_where start_date end_date ∅ r)
  = Sql.is_true
      (Sql.and (Sql.le (Some start_date) (purchase_date r))
               (Sql.le (purchase_date r) (Some end_date))).
Proof. rewrite query_where_nothing_processed. reflexivity. Qed.

(** C10.  [get_processed_events] answers the empty set when the object is
    missing and also whenever the read raises or the stored bytes are not
    JSON; the query that follows then carries no exclusion: it returns the
    rows of the date range whatever identifiers had been stored, so the
    sales already delivered are candidates again. *)
Theorem get_processed_events_failed_read (st : state) :
  s3_raises w (s3_requests st) = true
  \/ bucket st = None \/ bucket st = Some NotJson ->
  fst (get_processed_events w st) = ∅
  /\ forall (start_date : Z) (end_date : option Z),
       conn st = true -> query_succeeds w = true ->
       fst (get_vehicle_sales_events w start_date end_date true st)
       = Ret (firstn 1000
                (Py.sort_desc (fun r => default 0 (purchase_date r))
                   (List.filter
                      (fun r =>
                         Sql.is_true
                           (Sql.and
                              (Sql.le (Some start_date) (purchase_date r))
                              (Sql.le (purchase_date r)
                                      (Some (default (today w) end_date)))))
                      (validated_vehicle_sales w)))).
Proof.
  intros Hfail.
  assert (get_processed_events w st = (∅, s3_request_done st)) as Hempty.
  { unfold get_processed_events.
    destruct (s3_raises w (s3_requests st)) eqn:Hraise; [reflexivity |].
    destruct Hfail as [H | [H | H]]; [congruence | |]; rewrite H; reflexivity. }
  split; [rewrite Hempty; reflexivity |].
  intros start_date end_date Hconn Hquery.
  unfold get_vehicle_sales_events.
  rewrite Hconn, Hempty, Hquery. cbn [negb fst]. unfold run_query.
  rewrite (filter_ext _ _ (query_where_nothing_processed_true start_date
                             (default (today w) end_date))).
  reflexivity.
Qed.

End DeliveredSet.

Lemma get_processed_events_failed_read_witness :
  fst (Segment.get_processed_events Samples.world_second_read_raises
         Samples.state_before_second_request) = ∅
  /\ forall (start_date : Z) (end_date : option Z),
       Segment.conn Samples.state_before_second_request = true ->
       Segment.query_succeeds Samples.world_second_read_raises = true ->
       fst (Segment.get_vehicle_sales_events
              Samples.world_second_read_raises start_date end_date true
              Samples.state_before_second_request)
       = Segment.Ret
           (firstn 1000
              (Py.sort_desc (fun r => default 0 (Segment.purchase_date r))
                 (List.filter
                    (fun r =>
                       Sql.is_true
                         (Sql.and
                            (Sql.le (Some start_date)
                                    (Segment.purchase_date r))
                            (Sql.le (Segment.purchase_date r)
                                    (Some (default 19801 end_date)))))
                    [Samples.sale_B]))).
Proof.
  apply (get_processed_events_failed_read
           Samples.world_second_read_raises
           Samples.state_before_second_request).
  left. reflexivity.
Defined.

(* --------------------------------------------------------------------- *)
(** ** The delivery loop                                                 *)
(* --------------------------------------------------------------------- *)

Section DeliveryLoop.
Import Segment.
Variable w : world.

Lemma chunks_concat {A} (n m : nat) (l : list A) :
  concat (map (fun k => firstn n (skipn (k * n) l)) (seq 0 m))
  = firstn (m * n) l.
Proof.
  induction m as [| m IH]; [reflexivity |].
  rewrite seq_S, map_app, concat_app, IH. cbn [map concat Nat.add].
  rewrite app_nil_r, take_take_drop. f_equal. lia.
Qed.

Lemma range_step_covers (len n : nat) :
  (0 < n)%nat -> (len <= (len + n - 1) / n * n)%nat.
Proof.
  intros Hn.
  pose proof (Nat.div_mod_eq (len + n - 1) n) as Hdiv.
  pose proof (Nat.mod_upper_bound (len + n - 1) n) as Hmod.
  nia.
Qed.

Lemma fold_batches {A B} (f : B -> A -> B) (n : nat) (l : list A)
    (ks : list nat) (g : nat -> nat) (acc : B) :
  fold_left (fun acc i => fold_left f (firstn n (skipn i l)) acc)
            (map g ks) acc
  = fold_left f (concat (map (fun k => firstn n (skipn (g k) l)) ks)) acc.
Proof.
  revert acc. induction ks as [| k ks IH]; intros acc; [reflexivity |].
  cbn [map concat fold_left]. rewrite fold_left_app. apply IH.
Qed.

(** Batch boundaries have no effect: the loop treats the events one after
    the other. *)
Lemma delivery_loop_flat
    (batch_size : nat) (events : list sale) (acc : counters * state) :
  (0 < batch_size)%nat ->
  delivery_loop w batch_size events acc
  = fold_left (process_record w) events acc.
Proof.
  intros Hpos. unfold delivery_loop, Py.range_step.
  rewrite fold_batches, chunks_concat, firstn_all2; [reflexivity |].
  apply range_step_covers, Hpos.
Qed.

Lemma clean_and_validate_event_missing (r : sale) :
  missing (deal_number r) = true \/ missing (user_id r) = true
  \/ missing (vin r) = true ->
  clean_and_validate_event r = None.
Proof.
  unfold clean_and_validate_event.
  intros [-> | [-> | ->]]; rewrite ?orb_true_r; reflexivity.
Qed.

Lemma clean_and_validate_event_Some (r : sale) (cleaned : cleaned_event) :
  clean_and_validate_event r = Some cleaned ->
  deal_number r = Some (ce_deal_number cleaned)
  /\ vin r = Some (ce_vin cleaned).
Proof.
  unfold clean_and_validate_event.
  destruct (_ || _); [discriminate |].
  destruct (deal_number r), (user_id r), (vin r); try discriminate.
  intros [= <-]. split; reflexivity.
Qed.

(** A failure counted before the later records is a failure counted after
    them: the later records are treated the same way. *)
Lemma process_record_one_more_failed (c : counters) (st : state) (r : sale) :
  process_record w (one_more_failed c, st) r
  = (one_more_failed (fst (process_record w (c, st) r)),
     snd (process_record w (c, st) r)).
Proof.
  unfold process_record.
  destruct (clean_and_validate_event r) as [cleaned |]; [| reflexivity].
  destruct (convert_to_segment_track_event cleaned) as [ev |]; [| reflexivity].
  destruct (send_event_to_segment w ev st) as [[|] st']; reflexivity.
Qed.

Lemma fold_process_record_one_more_failed
    (events : list sale) (c : counters) (st : state) :
  fold_left (process_record w) events (one_more_failed c, st)
  = (one_more_failed (fst (fold_left (process_record w) events (c, st))),
     snd (fold_left (process_record w) events (c, st))).
Proof.
  revert c st. induction events as [| r events IH]; intros c st;
    [reflexivity |].
  cbn [fold_left]. rewrite process_record_one_more_failed.
  destruct (process_record w (c, st) r) as [c1 st1]. apply IH.
Qed.

(** C8.  A record that lacks its deal number, its user id or its VIN is
    rejected before anything is sent: it adds one failure and leaves the
    events posted, the identifiers kept for the delivered set and the count
    of successes as they are; and the loop over a list that holds it ends
    as the loop over the list without it, with that one failure more. *)
Theorem invalid_record_rejected_locally (r : sale) :
  missing (deal_number r) = true \/ missing (user_id r) = true
  \/ missing (vin r) = true ->
  (forall (c : counters) (st : state),
      process_record w (c, st) r = (one_more_failed c, st))
  /\ (forall (batch_size : nat) (before after : list sale)
             (c : counters) (st : state),
        (0 < batch_size)%nat ->
        delivery_loop w batch_size (before ++ r :: after) (c, st)
        = (one_more_failed
             (fst (delivery_loop w batch_size (before ++ after) (c, st))),
           snd (delivery_loop w batch_size (before ++ after) (c, st)))).
Proof.
  intros Hmissing.
  assert (forall c st, process_record w (c, st) r = (one_more_failed c, st))
    as Hrejected.
  { intros c st. unfold process_record.
    rewrite (clean_and_validate_event_missing r Hmissing). reflexivity. }
  split; [exact Hrejected |].
  intros batch_size before after c st Hpos.
  rewrite !delivery_loop_flat by exact Hpos.
  rewrite !fold_left_app. cbn [fold_left].
  destruct (fold_left (process_record w) before (c, st)) as [c1 st1].
  rewrite Hrejected. apply fold_process_record_one_more_failed.
Qed.

Lemma get_processed_events_posted (st : state) :
  posted (snd (get_processed_events w st)) = posted st.
Proof.
  unfold get_processed_events.
  destruct (s3_raises w _); [reflexivity |].
  destruct (bucket st) as [[ids |] |]; reflexivity.
Qed.

Lemma mark_events_processed_posted
    (ids : list string) (processed : gset string) (st : state) :
  posted (mark_events_processed w ids processed st) = posted st.
Proof.
  unfold mark_events_processed. destruct (s3_raises w _); reflexivity.
Qed.

Lemma get_vehicle_sales_events_posted
    (start_date : Z) (end_date : option Z) (exclude : bool) (st : state) :
  posted (snd (get_vehicle_sales_events w start_date end_date exclude st))
  = posted st.
Proof.
  unfold get_vehicle_sales_events.
  destruct (conn st); cbn [negb]; [| reflexivity].
  destruct exclude.
  - pose proof (get_processed_events_posted st) as Hp.
    destruct (get_processed_events w st) as [processed st1].
    destruct (query_succeeds w); exact Hp.
  - destruct (query_succeeds w); reflexivity.
Qed.

(** The set read does not depend on the connection to Redshift. *)
Lemma get_processed_events_conn (st : state) (b : bool) :
  fst (get_processed_events w
         (State (bucket st) (s3_requests st) (posted st) b))
  = fst (get_processed_events w st).
Proof.
  unfold get_processed_events. cbn [bucket s3_requests].
  destruct (s3_raises w _); [reflexivity |].
  destruct (bucket st) as [[ids |] |]; reflexivity.
Qed.

Lemma posts_from_refl (events : list sale) (st st' : state) :
  posted st' = posted st -> posts_from events st st'.
Proof. intros E ev Hin. left. rewrite <- E. exact Hin. Qed.

Lemma posts_from_trans (events : list sale) (st1 st2 st3 : state) :
  posts_from events st1 st2 -> posts_from events st2 st3 ->
  posts_from events st1 st3.
Proof.
  intros H12 H23 ev Hin.
  destruct (H23 ev Hin) as [Hin2 | Hnew]; [apply H12, Hin2 | right; exact Hnew].
Qed.

Lemma posts_from_incl (events events' : list sale) (st st' : state) :
  (forall r, In r events -> In r events') ->
  posts_from events st st' -> posts_from events' st st'.
Proof.
  intros Hincl H ev Hin.
  destruct (H ev Hin) as [Hold | (r & Hr & Hd)]; [left; exact Hold |].
  right. exists r. split; [apply Hincl, Hr | exact Hd].
Qed.

Lemma process_record_posts (c : counters) (st : state) (r : sale) :
  posts_from [r] st (snd (process_record w (c, st) r)).
Proof.
  unfold process_record.
  destruct (clean_and_validate_event r) as [cleaned |] eqn:Hclean;
    [| apply posts_from_refl; reflexivity].
  apply clean_and_validate_event_Some in Hclean as [Hdeal _].
  cbn [convert_to_segment_track_event].
  unfold send_event_to_segment.
  set (ev := SegmentEvent _ _ _ _ _ _).
  assert (posts_from [r] st
            (State (bucket st) (s3_requests st) (posted st ++ [ev]) (conn st)))
    as Hposts.
  { intros ev' Hin. cbn [posted] in Hin.
    apply in_app_or in Hin as [Hold | [<- | []]]; [left; exact Hold |].
    right. exists r. split; [left; reflexivity | exact Hdeal]. }
  destruct (segment_answers w _ ev) as [code |];
    [destruct (code =? 200) |]; exact Hposts.
Qed.

Lemma fold_process_record_posts
    (events : list sale) (c : counters) (st : state) :
  posts_from events st (snd (fold_left (process_record w) events (c, st))).
Proof.
  revert c st. induction events as [| r events IH]; intros c st.
  - apply posts_from_refl. reflexivity.
  - cbn [fold_left].
    pose proof (process_record_posts c st r) as Hfirst.
    destruct (process_record w (c, st) r) as [c1 st1].
    eapply posts_from_trans.
    + eapply posts_from_incl; [| exact Hfirst].
      intros x [<- | []]. left. reflexivity.
    + eapply posts_from_incl; [| apply IH].
      intros x Hx. right. exact Hx.
Qed.

End DeliveryLoop.

Lemma invalid_record_rejected_locally_witness :
  (forall (c : Segment.counters) (st : Segment.state),
      Segment.process_record Samples.world_one_new_sale (c, st)
                             Samples.sale_without_deal_number
      = (Segment.one_more_failed c, st))
  /\ (forall (batch_size : nat) (before after : list Segment.sale)
             (c : Segment.counters) (st : Segment.state),
        (0 < batch_size)%nat ->
        Segment.delivery_loop
          Samples.world_one_new_sale batch_size
          (before ++ Samples.sale_without_deal_number :: after) (c, st)
        = (Segment.one_more_failed
             (fst (Segment.delivery_loop Samples.world_one_new_sale
                     batch_size (before ++ after) (c, st))),
           snd (Segment.delivery_loop Samples.world_one_new_sale
                  batch_size (before ++ after) (c, st)))).
Proof.
  apply (invalid_record_rejected_locally
           Samples.world_one_new_sale Samples.sale_without_deal_number).
  left. reflexivity.
Defined.

(* --------------------------------------------------------------------- *)
(** ** Candidates and the delivered set                                  *)
(* --------------------------------------------------------------------- *)

Section Candidates.
Import Segment.
Variable w : world.

Lemma get_vehicle_sales_events_excludes
    (start_date : Z) (end_date : option Z) (st st' : state)
    (events : list sale) :
  get_vehicle_sales_events w start_date end_date true st = (Ret events, st') ->
  forall r d, In r events -> deal_number r = Some d ->
    d ∉ fst (get_processed_events w st).
Proof.
  unfold get_vehicle_sales_events.
  destruct (conn st); cbn [negb]; [| discriminate].
  destruct (get_processed_events w st) as [processed st1].
  destruct (query_succeeds w); [| discriminate].
  intros [= <- <-] r d Hin Hd. cbn [fst].
  apply run_query_In in Hin as [_ Htrue].
  eapply query_where_excludes; eassumption.
Qed.

Lemma slice_to_In {A} (m : Z) (x : A) (l : list A) :
  In x (Py.slice_to m l) -> In x l.
Proof. unfold Py.slice_to. destruct (0 <=? m); apply In_firstn. Qed.

Lemma commit_posted (c : counters) (st : state) :
  posted
    match processed_event_ids c with
    | [] => st
    | i :: ids =>
        let '(processed_events_set, st0) := get_processed_events w st in
        mark_events_processed w (i :: ids) processed_events_set st0
    end
  = posted st.
Proof.
  destruct (processed_event_ids c) as [| i ids]; [reflexivity |].
  pose proof (get_processed_events_posted w st) as Hp.
  destruct (get_processed_events w st) as [processed st0].
  rewrite mark_events_processed_posted. exact Hp.
Qed.

(** Whatever an invocation posts is the event of a record that the query
    of this invocation returned. *)
Lemma process_body_posts
    (start_date batch_size : Z) (max_events : option Z) (st : state) :
  exists events,
    (forall r d, In r events -> deal_number r = Some d ->
       d ∉ fst (get_processed_events w st))
    /\ posts_from events st
         (snd (process_body w start_date batch_size max_events st)).
Proof.
  unfold process_body, connect_to_redshift.
  destruct (redshift_connects w); cbn [negb];
    [| exists []; split; [intros ? ? [] | apply posts_from_refl; reflexivity]].
  set (st_c := State (bucket st) (s3_requests st) (posted st) true).
  pose proof (get_vehicle_sales_events_excludes start_date None st_c) as Hex.
  pose proof (get_vehicle_sales_events_posted w start_date None true st_c) as Hp.
  destruct (get_vehicle_sales_events w start_date None true st_c)
    as [[events |] st1]; cbn [snd] in Hp;
    [| exists []; split; [intros ? ? [] | apply posts_from_refl; exact Hp]].
  exists events. split.
  { intros r d Hin Hd. rewrite <- (get_processed_events_conn w st true).
    eapply Hex; [reflexivity | exact Hin | exact Hd]. }
  destruct events as [| e events]; [apply posts_from_refl; exact Hp |].
  set (events2 := match max_events with Some _ => _ | None => _ end).
  assert (forall x, In x events2 -> In x (e :: events)) as Hincl.
  { subst events2. destruct max_events as [m |]; [| tauto].
    destruct (_ && _); [intros x; apply slice_to_In | tauto]. }
  destruct (Z.compare_spec batch_size 0) as [Heq | Hlt | Hgt].
  - apply posts_from_refl. exact Hp.
  - cbn [processed_event_ids].
    destruct events2; apply posts_from_refl; exact Hp.
  - rewrite delivery_loop_flat by lia.
    pose proof (fold_process_record_posts w events2 (Counters 0 0 []) st1)
      as Hloop.
    destruct (fold_left (process_record w) events2 (Counters 0 0 [], st1))
      as [c2 st2]. cbn [snd] in Hloop.
    pose proof (commit_posted c2 st2) as Hcommit.
    apply (posts_from_trans _ st st1); [apply posts_from_refl; exact Hp |].
    apply (posts_from_incl events2); [exact Hincl |].
    apply (posts_from_trans _ st1 st2); [exact Hloop |].
    destruct events2; apply posts_from_refl; exact Hcommit.
Qed.

Lemma delivered_mono (st st' : state) (more : list segment_event) (id : string) :
  posted st' = posted st ++ more -> delivered w st id -> delivered w st' id.
Proof.
  intros E (n & ev & Hn & Hid & Hok). exists n, ev.
  rewrite E. split; [| split; assumption].
  apply lookup_app_l_Some. exact Hn.
Qed.

Lemma process_record_delivered (c : counters) (st : state) (r : sale) :
  let c' := fst (process_record w (c, st) r) in
  let st' := snd (process_record w (c, st) r) in
  (exists more, posted st' = posted st ++ more)
  /\ forall id, In id (processed_event_ids c') ->
       In id (processed_event_ids c) \/ delivered w st' id.
Proof.
  unfold process_record.
  destruct (clean_and_validate_event r) as [cleaned |];
    [| cbn; split; [exists []; symmetry; apply app_nil_r | tauto]].
  cbn [convert_to_segment_track_event]. unfold send_event_to_segment.
  set (ev := SegmentEvent _ _ _ _ _ _).
  destruct (segment_answers w (length (posted st)) ev) as [code |] eqn:Hanswer;
    [destruct (code =? 200) eqn:Hcode |]; cbn;
    (split; [exists [ev]; reflexivity |]); try tauto.
  intros id Hin. apply in_app_or in Hin as [Hold | [<- | []]];
    [left; exact Hold | right].
  exists (length (posted st)), ev. cbn [posted].
  split; [apply list_lookup_middle; reflexivity |].
  split; [reflexivity |].
  apply Z.eqb_eq in Hcode. rewrite Hanswer, Hcode. reflexivity.
Qed.

(** An identifier enters [processed_event_ids] only for an event that
    Segment answered with status 200. *)
Lemma fold_process_record_delivered
    (events : list sale) (c : counters) (st : state) :
  let c' := fst (fold_left (process_record w) events (c, st)) in
  let st' := snd (fold_left (process_record w) events (c, st)) in
  (exists more, posted st' = posted st ++ more)
  /\ forall id, In id (processed_event_ids c') ->
       In id (processed_event_ids c) \/ delivered w st' id.
Proof.
  revert c st. induction events as [| r events IH]; intros c st.
  - cbn. split; [exists []; symmetry; apply app_nil_r | tauto].
  - cbn [fold_left].
    pose proof (process_record_delivered c st r) as [[more1 Hposted1] Hids1].
    destruct (process_record w (c, st) r) as [c1 st1]. cbn [fst snd] in *.
    pose proof (IH c1 st1) as [[more2 Hposted2] Hids2].
    cbv zeta in *. split.
    + exists (more1 ++ more2). rewrite Hposted2, Hposted1, app_assoc.
      reflexivity.
    + intros id Hin. destruct (Hids2 id Hin) as [Hin1 | Hdelivered];
        [| right; exact Hdelivered].
      destruct (Hids1 id Hin1) as [Hold | Hdelivered]; [left; exact Hold |].
      right. eapply delivered_mono; eassumption.
Qed.

(** When neither request of the commit raises and the stored object is
    readable, the object written is the union of the stored identifiers and
    the new ones. *)
Lemma commit_stores_union (ids : list string) (st : state) :
  s3_raises w (s3_requests st) = false ->
  s3_raises w (S (s3_requests st)) = false ->
  bucket st <> Some NotJson ->
  stored_ids
    (mark_events_processed w ids (fst (get_processed_events w st))
                           (snd (get_processed_events w st)))
  = stored_ids st ∪ list_to_set ids.
Proof.
  intros Hread Hwrite Hjson.
  unfold get_processed_events, mark_events_processed, stored_ids.
  rewrite Hread.
  destruct (bucket st) as [[stored |] |]; [| congruence |];
    cbn [fst snd s3_request_done s3_requests bucket]; rewrite Hwrite;
    cbn [bucket]; rewrite list_to_set_elements_L; reflexivity.
Qed.

End Candidates.

(** C5, as stated, fails on the code: the query excludes by deal number,
    and a record is returned although the identifier derived from it is in
    the set that was loaded. *)
Lemma returned_record_message_id_stored :
  exists cleaned,
    fst (Segment.get_vehicle_sales_events
           Samples.world_one_new_sale 0 None true
           Samples.state_message_id_stored)
    = Segment.Ret [Samples.sale_B]
    /\ Segment.clean_and_validate_event Samples.sale_B = Some cleaned
    /\ Segment.generate_segment_message_id cleaned
       ∈ fst (Segment.get_processed_events
                Samples.world_one_new_sale Samples.state_message_id_stored).
Proof.
  eexists. split; [vm_compute; reflexivity |].
  split; [vm_compute; reflexivity |].
  vm_compute Segment.generate_segment_message_id.
  cbn. set_solver.
Qed.

(** C5, amended.  The exclusion is part of the condition of the query and
    bears on the deal number: no record that the query returns has its deal
    number in the set loaded for that query, and an invocation posts no
    event for a deal number that is in the set stored when it starts. *)
Theorem candidates_exclude_processed_deal_numbers (w : Segment.world) :
  (forall (start_date : Z) (end_date : option Z) (st st' : Segment.state)
          (events : list Segment.sale),
      Segment.get_vehicle_sales_events w start_date end_date true st
      = (Segment.Ret events, st') ->
      forall r d, In r events -> Segment.deal_number r = Some d ->
        d ∉ fst (Segment.get_processed_events w st))
  /\ (forall (start_date batch_size : Z) (max_events : option Z)
             (st : Segment.state) (ev : Segment.segment_event),
        In ev (Segment.posted
                 (snd (Segment.process_vehicle_purchase_events
                         w start_date batch_size max_events st))) ->
        In ev (Segment.posted st)
        \/ Segment.prop_deal_number ev
           ∉ fst (Segment.get_processed_events w st)).
Proof.
  split; [apply get_vehicle_sales_events_excludes |].
  intros start_date batch_size max_events st ev.
  unfold Segment.process_vehicle_purchase_events.
  destruct (process_body_posts w start_date batch_size max_events st)
    as (events & Hexcl & Hposts).
  destruct (Segment.process_body w start_date batch_size max_events st)
    as [[resp |] st']; cbn [snd Segment.posted Segment.close_redshift_connection];
    cbn [snd] in Hposts; intros Hin;
    (destruct (Hposts ev Hin) as [Hold | (r & Hr & Hd)];
     [left; exact Hold | right; exact (Hexcl r _ Hr Hd)]).
Qed.

Lemma candidates_exclude_processed_deal_numbers_witness :
  "B"%string
  ∉ fst (Segment.get_processed_events
           Samples.world_one_new_sale
           (Segment.State (Some (Segment.JsonArray ["A"%string])) 0 [] true)).
Proof.
  assert (Segment.get_vehicle_sales_events
            Samples.world_one_new_sale 0 None true
            (Segment.State (Some (Segment.JsonArray ["A"%string])) 0 [] true)
          = (Segment.Ret [Samples.sale_B],
             Segment.State (Some (Segment.JsonArray ["A"%string])) 1 [] true))
    as Hquery by (vm_compute; reflexivity).
  apply (proj1 (candidates_exclude_processed_deal_numbers
                  Samples.world_one_new_sale)
               0 None _ _ _ Hquery Samples.sale_B "B"%string).
  - left. reflexivity.
  - reflexivity.
Defined.

(** C6 fails on the code when the read that precedes the write raises:
    the empty set is taken for the stored one, and the write replaces the
    stored identifiers by the new ones. *)
Lemma commit_after_failed_read_forgets_delivered :
  let st' :=
    snd (Segment.process_vehicle_purchase_events
           Samples.world_second_read_raises 0 100 None
           Samples.state_A_delivered) in
  "A"%string ∈ Segment.stored_ids Samples.state_A_delivered
  /\ Segment.bucket st' = Some (Segment.JsonArray ["B"%string])
  /\ "A"%string ∉ Segment.stored_ids st'.
Proof.
  split.
  { apply elem_of_list_to_set. left. }
  split; [vm_compute; reflexivity |].
  unfold Segment.stored_ids.
  replace (Segment.bucket _) with (Some (Segment.JsonArray ["B"%string]))
    by (vm_compute; reflexivity).
  rewrite elem_of_list_to_set. intros Hin.
  apply list_elem_of_In in Hin as [Hin | []]. discriminate.
Qed.

Example scenario_C :
  let st' :=
    snd (Segment.process_vehicle_purchase_events
           Samples.world_A_and_B 0 100 None Samples.state_A_delivered) in
  map Segment.prop_deal_number (Segment.posted st') = ["B"%string]
  /\ Segment.stored_ids st' = {["A"%string; "B"%string]}.
Proof.
  split; [vm_compute; reflexivity |].
  unfold Segment.stored_ids.
  replace (Segment.bucket _)
    with (Some (Segment.JsonArray
                  (elements ({["A"%string; "B"%string]} : gset string))))
    by (vm_compute; reflexivity).
  apply list_to_set_elements_L.
Qed.

(* --------------------------------------------------------------------- *)
(** ** More on the load into the warehouse                               *)
(* --------------------------------------------------------------------- *)

Section Load.
Import GlueEtl.




Lemma filter_all {A} (P : A -> Prop) `{forall x, Decision (P x)}
    (l : list A) :
  Forall P l -> filter P l = l.
Proof.
  induction 1 as [| x l Hx Hl IH]; [reflexivity |].
  rewrite filter_cons, decide_True, IH by exact Hx. reflexivity.
Qed.



(** X2.  A batch none of whose keys matches a row of the table is a pure
    insert: the table keeps all its rows, in their order, and the batch
    follows. *)
Theorem redshift_load_pure_insert (frame : list row) (db : database) :
  Forall (fun r => ~ matched_by frame r) (target_rows db) ->
  redshift_load frame db
  = Some (Database (Some (target_rows db ++ frame)) None).
Proof.
  intros Hnone. rewrite redshift_load_result, filter_all by exact Hnone.
  reflexivity.
Qed.

Lemma redshift_load_pure_insert_witness :
  redshift_load [Samples.sale_1]
    (Database (Some [Samples.sale_without_update_time]) None)
  = Some (Database
            (Some (target_rows
                     (Database (Some [Samples.sale_without_update_time]) None)
                     ++ [Samples.sale_1]))
            None).
Proof.
  apply redshift_load_pure_insert.
  repeat constructor. vm_compute. intros H. inversion H; subst.
  - destruct H1 as [(_ & _ & _ & [x Hx]) _]. discriminate.
  - inversion H1.
Defined.

(** X3.  An empty batch changes no row: the load creates the target table
    when it is missing, drops the temporary table and leaves the rows as
    they were. *)
Theorem redshift_load_empty_batch (db : database) :
  redshift_load [] db = Some (Database (Some (target_rows db)) None).
Proof.
  rewrite redshift_load_result, app_nil_r, filter_all; [reflexivity |].
  apply Forall_forall. intros r _ Hm. inversion Hm.
Qed.

(** X4.  A sale that comes again with another last-update time does not
    replace the row of the table: a row whose [rowlastupdatedutc] differs
    from that of every incoming row is still there after the load, beside
    the incoming rows. *)
Theorem redshift_load_keeps_other_update_times
    (frame : list row) (db db' : database) (r : row) :
  r ∈ target_rows db ->
  Forall (fun i => rowlastupdatedutc i <> rowlastupdatedutc r) frame ->
  redshift_load frame db = Some db' ->
  r ∈ target_rows db' /\ forall i, i ∈ frame -> i ∈ target_rows db'.
Proof.
  intros Hr Hdiff. rewrite redshift_load_result. intros [= <-]. cbn. split.
  - apply elem_of_app. left. apply list_elem_of_filter. split; [| exact Hr].
    intros Hm. apply Exists_exists in Hm as (i & Hi & _ & Hkey).
    rewrite Forall_forall in Hdiff. apply (Hdiff i Hi).
    unfold key in Hkey. congruence.
  - intros i Hi. apply elem_of_app. right. exact Hi.
Qed.

Lemma redshift_load_keeps_other_update_times_witness :
  Samples.sale_1
    ∈ target_rows
        (Database
           (Some [Samples.sale_1;
                  Row (Some "1") (Some "9") (Some "V1") (Some 1704153600)
                      (Some 1703980800) [Some "Retail"]])
           None)
  /\ forall i,
       i ∈ [Row (Some "1") (Some "9") (Some "V1") (Some 1704153600)
                (Some 1703980800) [Some "Retail"]] ->
       i ∈ target_rows
             (Database
                (Some [Samples.sale_1;
                       Row (Some "1") (Some "9") (Some "V1") (Some 1704153600)
                           (Some 1703980800) [Some "Retail"]])
                None).
Proof.
  apply (redshift_load_keeps_other_update_times
           _ (Database (Some [Samples.sale_1]) None)).
  - left.
  - repeat constructor. discriminate.
  - vm_compute. reflexivity.
Defined.

(** X5.  After a load the rows whose key matches an incoming key are the
    incoming rows: no former version of a matched key is left. *)
Theorem redshift_load_replaces_matched
    (frame : list row) (db db' : database) (r : row) :
  redshift_load frame db = Some db' ->
  r ∈ target_rows db' ->
  matched_by frame r ->
  r ∈ frame.
Proof.
  rewrite redshift_load_result. intros [= <-]. cbn. intros Hr Hm.
  apply elem_of_app in Hr as [Hr | Hr]; [| exact Hr].
  apply list_elem_of_filter in Hr as [Hnot _]. contradiction.
Qed.

Lemma redshift_load_replaces_matched_witness :
  Samples.sale_1_again ∈ [Samples.sale_1_again].
Proof.
  apply (redshift_load_replaces_matched
           [Samples.sale_1_again]
           (Database (Some [Samples.sale_1]) None)
           (Database (Some [Samples.sale_1_again]) None)).
  - vm_compute. reflexivity.
  - left.
  - constructor. split; [repeat split; cbn; eauto | reflexivity].
Defined.

End Load.

(* --------------------------------------------------------------------- *)
(** ** The phases of the ingestion run                                   *)
(* --------------------------------------------------------------------- *)

Section Phases.
Import S3Upload.

Lemma trace_all_ret {A} (P : event -> Prop) (a : A) : trace_all P (ret a).
Proof. constructor. Qed.

Lemma trace_all_raise {A} (P : event -> Prop) (e : exn) :
  trace_all P (@raise A e).
Proof. constructor. Qed.

Lemma trace_all_emit (P : event -> Prop) (ev : event) :
  P ev -> trace_all P (emit ev).
Proof. intros H. constructor; [exact H | constructor]. Qed.

Lemma trace_all_bind {A B} (P : event -> Prop) (m : io A) (f : A -> io B) :
  trace_all P m -> (forall a, outcome m = Ret a -> trace_all P (f a)) ->
  trace_all P (bind m f).
Proof.
  unfold trace_all. destruct m as [t [a | e]]; simpl; intros Hm Hf.
  - specialize (Hf a eq_refl). destruct (f a) as [t' r]. simpl in *.
    apply Forall_app; split; assumption.
  - exact Hm.
Qed.

Lemma trace_all_try_except {A} (P : event -> Prop)
    (m : io A) (h : exn -> io A) :
  trace_all P m -> (forall e, trace_all P (h e)) ->
  trace_all P (try_except m h).
Proof.
  unfold trace_all. destruct m as [t [a | e]]; simpl; intros Hm Hh.
  - exact Hm.
  - specialize (Hh e). destruct (h e) as [t' r]. simpl in *.
    apply Forall_app; split; assumption.
Qed.

Lemma trace_all_impl {A} (P Q : event -> Prop) (m : io A) :
  (forall ev, P ev -> Q ev) -> trace_all P m -> trace_all Q m.
Proof.
  unfold trace_all. intros H Hall. rewrite Forall_forall in Hall |- *.
  intros ev Hev. apply H, Hall, Hev.
Qed.

Lemma outcome_bind {A B} (m : io A) (f : A -> io B) (a : A) :
  outcome m = Ret a -> outcome (bind m f) = outcome (f a).
Proof.
  destruct m as [t r]. cbn. intros ->. cbn. destruct (f a); reflexivity.
Qed.

Lemma trace_bind {A B} (m : io A) (f : A -> io B) (a : A) :
  outcome m = Ret a -> trace (bind m f) = trace m ++ trace (f a).
Proof.
  destruct m as [t r]. cbn. intros ->. cbn. destruct (f a); reflexivity.
Qed.

Variable w : world.
Variable base_directory : string.

(** The files downloaded, table after table. *)
Lemma download_loop_outcome (table_list : list string) (downloaded : list path) :
  outcome (download_loop w base_directory table_list downloaded)
  = Ret (downloaded ++ flat_map (file_of_table w base_directory) table_list).
Proof.
  revert downloaded.
  induction table_list as [| table rest IH]; intros downloaded.
  - cbn. rewrite app_nil_r. reflexivity.
  - cbn [download_loop flat_map]. unfold file_of_table at 1.
    destruct (download_table w base_directory table) as [t [[p |] | e]];
      cbn [try_except outcome snd ret].
    + erewrite outcome_bind by reflexivity. cbv beta iota.
      rewrite IH, <- app_assoc. reflexivity.
    + erewrite outcome_bind by reflexivity. cbv beta iota.
      rewrite IH. reflexivity.
    + rewrite app_nil_r. erewrite outcome_bind by reflexivity.
      cbv beta iota. rewrite IH. reflexivity.
Qed.

Lemma file_of_table_length (table : string) :
  (length (file_of_table w base_directory table) <= 1)%nat.
Proof.
  unfold file_of_table.
  destruct (outcome (download_table w base_directory table)) as [[p |] | e];
    cbn; lia.
Qed.

Lemma flat_map_length_le {A B} (f : A -> list B) (l : list A) :
  (forall a, length (f a) <= 1)%nat -> (length (flat_map f l) <= length l)%nat.
Proof.
  intros Hf. induction l as [| a l IH]; [reflexivity |].
  cbn [flat_map]. rewrite length_app. specialize (Hf a). cbn [length]. lia.
Qed.

(** X7.  Once the session is open, the download phase answers the file of
    each table in the order of the table list; a table whose listing, stat
    or retrieval fails adds nothing and leaves the files of the other
    tables as they are, so that there is at most one file per table. *)
Theorem download_files_table_by_table (table_list : list string) :
  sftp_connect w = true ->
  outcome (download_files w base_directory table_list)
  = Ret (flat_map (file_of_table w base_directory) table_list)
  /\ (length (flat_map (file_of_table w base_directory) table_list)
      <= length table_list)%nat.
Proof.
  intros Hconnect. split.
  - unfold download_files, connect_sftp. rewrite Hconnect.
    cbn [bind emit ret app].
    pose proof (download_loop_outcome table_list []) as Hloop.
    destruct (download_loop w base_directory table_list []) as [t r].
    cbn in Hloop |- *. exact Hloop.
  - apply flat_map_length_le, file_of_table_length.
Qed.

(** The inner loop makes only [stat] calls and keeps only names ending in
    [.csv.gpg]. *)
Lemma collect_files_spec (table_path : string) (names : list string) :
  Forall (fun ev => match ev with SftpStat _ => True | _ => False end)
         (trace (collect_files w table_path names))
  /\ forall files,
       outcome (collect_files w table_path names) = Ret files ->
       Forall (fun f => Py.endswith (fst f) ".csv.gpg" = true) files.
Proof.
  induction names as [| filename rest [IHt IHo]]; cbn [collect_files].
  - cbn. split; [constructor | intros files [= <-]; constructor].
  - destruct (Py.endswith filename ".csv.gpg") eqn:Hsuffix; [| split; assumption].
    destruct (sftp_stat w _) as [st_mtime |].
    + destruct (collect_files w table_path rest) as [t [more | e]];
        cbn in IHt, IHo |- *.
      * split; [constructor; [exact I | rewrite app_nil_r; exact IHt] |].
        intros files [= <-]. constructor; [exact Hsuffix | apply IHo; reflexivity].
      * split; [constructor; [exact I | exact IHt] | discriminate].
    + cbn. split; [repeat constructor | discriminate].
Qed.

Lemma select_latest_In (files : list (string * Z)) (latest_file : string) :
  select_latest files = Some latest_file ->
  exists mtime, In (latest_file, mtime) files.
Proof.
  intros Hsel. destruct files as [| c l]; [discriminate |].
  destruct (select_latest_spec (c :: l)) as (f & Hf & i & t & Hi & _);
    [discriminate |].
  rewrite Hsel in Hf. injection Hf as <-. exists t.
  apply list_elem_of_In, list_elem_of_lookup. exists i. exact Hi.
Qed.

Lemma outcome_bind_inv {A B} (m : io A) (f : A -> io B) (b : B) :
  outcome (bind m f) = Ret b ->
  exists a, outcome m = Ret a /\ outcome (f a) = Ret b.
Proof.
  destruct m as [t [a | e]]; cbn; [| discriminate].
  intros H. exists a. split; [reflexivity |].
  destruct (f a) as [t' r]. exact H.
Qed.

Lemma string_app_assoc (a b c : string) :
  ((a +:+ b) +:+ c = a +:+ (b +:+ c))%string.
Proof.
  induction a as [| ch a IH]; [reflexivity |].
  change (String ch ((a +:+ b) +:+ c) = String ch (a +:+ (b +:+ c))).
  rewrite IH. reflexivity.
Qed.

Lemma download_table_spec (table : string) :
  trace_all (fetches_export base_directory [table])
            (download_table w base_directory table)
  /\ forall p,
       outcome (download_table w base_directory table) = Ret (Some p) ->
       Py.endswith (name p) ".csv.gpg" = true /\ parent p = encrypted_path.
Proof.
  unfold download_table.
  set (table_path := (base_directory +:+ "/" +:+ table)%string).
  assert (forall files latest_file,
             outcome (collect_files w table_path
                        match sftp_listdir w table_path with
                        | Listing names => names
                        | _ => []
                        end) = Ret files ->
             select_latest files = Some latest_file ->
             Py.endswith latest_file ".csv.gpg" = true) as Hsuffix.
  { intros files latest_file Hfiles Hsel.
    destruct (select_latest_In files latest_file Hsel) as [mtime Hin].
    destruct (collect_files_spec table_path
                match sftp_listdir w table_path with
                | Listing names => names
                | _ => []
                end) as [_ Hnames].
    specialize (Hnames files Hfiles). rewrite Forall_forall in Hnames.
    apply (Hnames (latest_file, mtime)), list_elem_of_In, Hin. }
  split.
  - apply trace_all_bind; [apply trace_all_emit; exact I |]. intros _ _.
    destruct (sftp_listdir w table_path) as [names | |];
      [| apply trace_all_raise ..].
    apply trace_all_bind; [apply trace_all_ret |]. intros names' [= <-].
    apply trace_all_bind.
    { destruct (collect_files_spec table_path names) as [Hstats _].
      unfold trace_all. rewrite Forall_forall in Hstats |- *.
      intros ev Hev. specialize (Hstats ev Hev).
      destruct ev; try contradiction. exact I. }
    intros files Hfiles.
    destruct (select_latest files) as [latest_file |] eqn:Hsel;
      [| apply trace_all_ret].
    apply trace_all_bind;
      [| intros _ _; destruct (sftp_get w _);
         [apply trace_all_ret | apply trace_all_raise]].
    apply trace_all_emit. cbn.
    split; [exact (Hsuffix files latest_file Hfiles Hsel) |].
    split; [reflexivity |].
    exists table. split; [left; reflexivity |].
    subst table_path. rewrite !string_app_assoc. reflexivity.
  - intros p Hp.
    apply outcome_bind_inv in Hp as (_ & _ & Hp).
    apply outcome_bind_inv in Hp as (names & Hnames & Hp).
    apply outcome_bind_inv in Hp as (files & Hfiles & Hp).
    destruct (sftp_listdir w table_path) as [names' | |];
      cbn in Hnames; try discriminate. injection Hnames as ->.
    destruct (select_latest files) as [latest_file |] eqn:Hsel;
      [| cbn in Hp; discriminate].
    apply outcome_bind_inv in Hp as (_ & _ & Hp).
    destruct (sftp_get w _); cbn in Hp; [| discriminate].
    injection Hp as <-. cbn.
    split; [exact (Hsuffix files latest_file Hfiles Hsel) | reflexivity].
Qed.

Lemma fetches_export_incl (l1 l2 : list string) (ev : event) :
  (forall t, In t l1 -> In t l2) ->
  fetches_export base_directory l1 ev -> fetches_export base_directory l2 ev.
Proof.
  intros Hincl. destruct ev; cbn; try tauto.
  intros (Hs & Hp & table & Hin & Hr). repeat split; try assumption.
  exists table. split; [apply Hincl, Hin | exact Hr].
Qed.

Lemma download_loop_fetches (table_list : list string) (downloaded : list path) :
  trace_all (fetches_export base_directory table_list)
            (download_loop w base_directory table_list downloaded).
Proof.
  revert downloaded.
  induction table_list as [| table rest IH]; intros downloaded;
    cbn [download_loop].
  - apply trace_all_ret.
  - apply trace_all_bind.
    + apply trace_all_try_except; [| intros; apply trace_all_ret].
      eapply trace_all_impl; [| apply download_table_spec].
      intros ev. apply fetches_export_incl. intros t [<- | []]. left.
      reflexivity.
    + intros got _.
      assert (forall d, trace_all (fetches_export base_directory (table :: rest))
                          (download_loop w base_directory rest d)) as Hrest.
      { intros d. eapply trace_all_impl; [| apply IH].
        intros ev. apply fetches_export_incl. intros t Ht. right. exact Ht. }
      destruct got; apply Hrest.
Qed.

Lemma file_of_table_export (table : string) (p : path) :
  In p (file_of_table w base_directory table) ->
  Py.endswith (name p) ".csv.gpg" = true /\ parent p = encrypted_path.
Proof.
  unfold file_of_table. intros Hin.
  destruct (download_table_spec table) as [_ Hp].
  destruct (outcome (download_table w base_directory table)) as [[q |] | e];
    try contradiction.
  destruct Hin as [<- | []]. apply Hp. reflexivity.
Qed.

(** X8.  The download phase retrieves nothing but exports: every file it
    gets from the server is a [.csv.gpg] file of one of the tables asked
    for, fetched from the directory of that table into the directory of
    encrypted files; and every path it answers is such a file. *)
Theorem download_files_only_exports (table_list : list string) :
  trace_all (fetches_export base_directory table_list)
            (download_files w base_directory table_list)
  /\ forall l p,
       outcome (download_files w base_directory table_list) = Ret l ->
       In p l ->
       Py.endswith (name p) ".csv.gpg" = true /\ parent p = encrypted_path.
Proof.
  split.
  - unfold download_files, connect_sftp.
    apply trace_all_bind.
    + apply trace_all_bind; [apply trace_all_emit; exact I |].
      intros _ _. destruct (sftp_connect w);
        [apply trace_all_ret | apply trace_all_raise].
    + intros _ _. pose proof (download_loop_fetches table_list []) as Hloop.
      unfold trace_all in *.
      destruct (download_loop w base_directory table_list []) as [t r].
      cbn in *. apply Forall_app. split; [exact Hloop | repeat constructor].
  - intros l p Hl Hin. unfold download_files, connect_sftp in Hl.
    destruct (sftp_connect w); cbn [bind emit ret raise app] in Hl;
      [| discriminate].
    pose proof (download_loop_outcome table_list []) as Hloop.
    destruct (download_loop w base_directory table_list []) as [t r].
    cbn in Hl, Hloop. rewrite Hloop in Hl. injection Hl as <-.
    apply in_flat_map in Hin as (table & _ & Hin).
    apply (file_of_table_export table p Hin).
Qed.

Lemma download_loop_in_session (table_list : list string) (downloaded : list path) :
  trace_all in_session (download_loop w base_directory table_list downloaded).
Proof.
  revert downloaded.
  induction table_list as [| table rest IH]; intros downloaded;
    cbn [download_loop].
  - apply trace_all_ret.
  - apply trace_all_bind; [| intros [p |] _; apply IH].
    apply trace_all_try_except; [| intros; apply trace_all_ret].
    unfold download_table.
    apply trace_all_bind; [apply trace_all_emit; exact I |]. intros _ _.
    apply trace_all_bind.
    { destruct (sftp_listdir w _);
        [apply trace_all_ret | apply trace_all_raise ..]. }
    intros names _. apply trace_all_bind.
    { destruct (collect_files_spec
                  (base_directory +:+ "/" +:+ table)%string names)
        as [Hstats _].
      unfold trace_all. rewrite Forall_forall in Hstats |- *.
      intros ev Hev. specialize (Hstats ev Hev).
      destruct ev; try contradiction. exact I. }
    intros files _. destruct (select_latest files);
      [| apply trace_all_ret].
    apply trace_all_bind; [apply trace_all_emit; exact I |]. intros _ _.
    destruct (sftp_get w _); [apply trace_all_ret | apply trace_all_raise].
Qed.

(** X9.  The SFTP session is opened once and, when it opens, closed once,
    at the very end of the download phase, whatever fails in between:
    every call between the two is a listing, a stat or a retrieval.  When
    the session does not open, nothing else is called. *)
Theorem download_files_session (table_list : list string) :
  exists t,
    Forall in_session t
    /\ trace (download_files w base_directory table_list)
       = if sftp_connect w then SftpConnect :: t ++ [SftpClose]
         else [SftpConnect].
Proof.
  unfold download_files, connect_sftp.
  destruct (sftp_connect w); cbn [bind emit ret raise app trace fst].
  - pose proof (download_loop_in_session table_list []) as Hloop.
    unfold trace_all in Hloop.
    destruct (download_loop w base_directory table_list []) as [t r].
    exists t. split; [exact Hloop | reflexivity].
  - exists []. split; [constructor | reflexivity].
Qed.

Lemma decrypt_files_eq (encrypted_file_paths : list path) :
  decrypt_files w encrypted_file_paths
  = (map (fun p => GpgDecryptFile p (decrypted_file p)) encrypted_file_paths,
     Ret (map decrypted_file
              (List.filter (decrypts w) encrypted_file_paths))).
Proof.
  induction encrypted_file_paths as [| p rest IH]; [reflexivity |].
  cbn [decrypt_files map List.filter]. rewrite IH. unfold decrypts at 2.
  destruct (gpg_decrypt_file w p); cbn; rewrite app_nil_r; reflexivity.
Qed.


Variable re_match_filename : string -> option (string * string * string).

Lemma upload_to_s3_eq (decrypted_file_paths : list path) :
  upload_to_s3 w re_match_filename decrypted_file_paths
  = (omap (fun p => S3UploadFile p <$> s3_key re_match_filename p)
          decrypted_file_paths,
     Ret (List.filter (s3_upload_file w)
            (omap (s3_key re_match_filename) decrypted_file_paths))).
Proof.
  induction decrypted_file_paths as [| p rest IH]; [reflexivity |].
  cbn [upload_to_s3 omap list_omap].
  destruct (s3_key re_match_filename p) as [key |]; cbn [fmap option_fmap option_map];
    [| exact IH].
  rewrite IH. cbn [List.filter].
  destruct (s3_upload_file w key); cbn; rewrite app_nil_r; reflexivity.
Qed.

(** X11.  The upload never raises: a file whose name does not match the
    pattern is passed over without a call to S3, every other file is
    uploaded once under its own key, and the keys answered are, in order,
    those whose upload did not fail. *)
Theorem upload_to_s3_each_on_its_own (decrypted_file_paths : list path) :
  trace (upload_to_s3 w re_match_filename decrypted_file_paths)
  = omap (fun p => S3UploadFile p <$> s3_key re_match_filename p)
         decrypted_file_paths
  /\ outcome (upload_to_s3 w re_match_filename decrypted_file_paths)
     = Ret (List.filter (s3_upload_file w)
              (omap (s3_key re_match_filename) decrypted_file_paths))
  /\ forall p key,
       In (S3UploadFile p key)
          (trace (upload_to_s3 w re_match_filename decrypted_file_paths)) ->
       In p decrypted_file_paths /\ s3_key re_match_filename p = Some key.
Proof.
  rewrite upload_to_s3_eq. split; [reflexivity |]. split; [reflexivity |].
  intros p key Hin. cbn in Hin.
  apply list_elem_of_In, list_elem_of_omap in Hin as (q & Hq & Hev).
  destruct (s3_key re_match_filename q) as [k |] eqn:Hkey; [| discriminate].
  injection Hev as <- <-. split; [apply list_elem_of_In, Hq | exact Hkey].
Qed.

Lemma cleanup_local_files_eq (file_paths : list path) :
  cleanup_local_files file_paths = (map Unlink file_paths, Ret tt).
Proof.
  induction file_paths as [| p rest IH]; [reflexivity |].
  cbn [cleanup_local_files map]. rewrite IH. reflexivity.
Qed.

Lemma existsb_filter_nil {A} (f : A -> bool) (l : list A) :
  existsb f l = false <-> List.filter f l = [].
Proof.
  induction l as [| a l IH]; cbn; [tauto |].
  destruct (f a); cbn; [split; discriminate | exact IH].
Qed.

(** The whole run, phase after phase. *)
Lemma process_daily_exports_phases :
  let downloaded := files_downloaded w base_directory in
  let decrypted := files_decrypted w base_directory in
  let uploaded := keys_uploaded w base_directory re_match_filename in
  process_daily_exports w base_directory re_match_filename
  = if existsb (decrypts w) downloaded
    then (trace (download_files w base_directory required_tables)
            ++ map (fun p => GpgDecryptFile p (decrypted_file p)) downloaded
            ++ omap (fun p => S3UploadFile p <$> s3_key re_match_filename p)
                    decrypted
            ++ match uploaded with [] => [] | _ => [GlueStartJobRun] end
            ++ map Unlink (downloaded ++ decrypted),
          Ret true)
    else (trace (download_files w base_directory required_tables)
            ++ map (fun p => GpgDecryptFile p (decrypted_file p)) downloaded,
          Ret false).
Proof.
  cbv zeta. unfold keys_uploaded, files_decrypted, files_downloaded.
  unfold process_daily_exports, outcome, trace.
  destruct (download_files w base_directory required_tables)
    as [t [downloaded | e]]; cbn [fst snd bind try_except existsb map app].
  - destruct downloaded as [| d ds].
    + cbn. rewrite !app_nil_r. reflexivity.
    + rewrite decrypt_files_eq.
      destruct (existsb (decrypts w) (d :: ds)) eqn:Hany.
      * destruct (List.filter (decrypts w) (d :: ds)) as [| f fs] eqn:Hfilter.
        { apply existsb_filter_nil in Hfilter. congruence. }
        cbn [map bind]. rewrite upload_to_s3_eq.
        rewrite cleanup_local_files_eq. unfold trigger_glue_etl.
        destruct (List.filter (s3_upload_file w) _) as [| k ks];
          cbn; rewrite ?app_nil_r, <- ?app_assoc; reflexivity.
      * apply existsb_filter_nil in Hany. rewrite Hany.
        cbn. rewrite !app_nil_r. reflexivity.
  - cbn. rewrite !app_nil_r. reflexivity.
Qed.

Lemma download_files_sftp_only (table_list : list string) :
  Forall (fun ev => match ev with
                    | SftpConnect | SftpClose | SftpListdir _ | SftpStat _
                    | SftpGet _ _ => True
                    | _ => False
                    end)
         (trace (download_files w base_directory table_list)).
Proof.
  unfold download_files, connect_sftp.
  destruct (sftp_connect w); cbn [bind emit ret raise app trace fst].
  - pose proof (download_loop_in_session table_list []) as Hloop.
    unfold trace_all in Hloop.
    destruct (download_loop w base_directory table_list []) as [t r].
    cbn in *. constructor; [exact I |]. apply Forall_app.
    split; [| repeat constructor].
    rewrite Forall_forall in Hloop |- *. intros ev Hev.
    specialize (Hloop ev Hev). destruct ev; try contradiction; exact I.
  - repeat constructor.
Qed.

Ltac not_in_download H :=
  let Hall := fresh in
  pose proof (download_files_sftp_only required_tables) as Hall;
  rewrite Forall_forall in Hall;
  apply list_elem_of_In, Hall in H; contradiction.

Ltac not_in_map H :=
  let x := fresh in let E := fresh in
  apply in_map_iff in H as (x & E & _); discriminate.

(** X12.  The run never raises, and it reports success exactly when at
    least one of the downloaded files decrypts: what the uploads, the start
    of the Glue job and the removal of the local files answer does not
    change the result. *)
Theorem process_daily_exports_outcome :
  outcome (process_daily_exports w base_directory re_match_filename)
  = Ret (existsb (decrypts w) (files_downloaded w base_directory)).
Proof.
  rewrite process_daily_exports_phases.
  destruct (existsb (decrypts w) (files_downloaded w base_directory));
    reflexivity.
Qed.

(** X13.  When none of the downloaded files decrypts, the run stops after
    the decryption phase: it uploads nothing, does not start the Glue job
    and removes no local file. *)
Theorem no_decryption_stops_run :
  existsb (decrypts w) (files_downloaded w base_directory) = false ->
  Forall (fun ev => ~ after_decryption ev)
         (trace (process_daily_exports w base_directory re_match_filename)).
Proof.
  intros Hnone. rewrite process_daily_exports_phases, Hnone. cbn [trace fst].
  apply Forall_forall. intros ev Hev Hafter.
  apply list_elem_of_In, in_app_or in Hev as [Hev | Hev].
  - pose proof (download_files_sftp_only required_tables) as Hall.
    rewrite Forall_forall in Hall. apply list_elem_of_In, Hall in Hev.
    destruct ev; contradiction.
  - apply in_map_iff in Hev as (p & <- & _). contradiction.
Qed.

(** X14.  Nothing is uploaded for a file that did not decrypt: every
    upload to S3 that the run makes takes the plaintext of a downloaded
    file for which GPG reported success, under the key computed from its
    name. *)
Theorem uploads_only_decrypted (src : path) (key : string) :
  In (S3UploadFile src key)
     (trace (process_daily_exports w base_directory re_match_filename)) ->
  exists enc,
    In enc (files_downloaded w base_directory)
    /\ decrypts w enc = true
    /\ src = decrypted_file enc
    /\ s3_key re_match_filename src = Some key.
Proof.
  rewrite process_daily_exports_phases.
  destruct (existsb (decrypts w) (files_downloaded w base_directory));
    cbn [trace fst]; intros Hin.
  - apply in_app_or in Hin as [Hin | Hin]; [not_in_download Hin |].
    apply in_app_or in Hin as [Hin | Hin]; [not_in_map Hin |].
    apply in_app_or in Hin as [Hin | Hin].
    + apply list_elem_of_In, list_elem_of_omap in Hin as (q & Hq & Hev).
      destruct (s3_key re_match_filename q) as [k |] eqn:Hkey;
        [| discriminate].
      injection Hev as -> ->.
      unfold files_decrypted in Hq.
      apply list_elem_of_In, in_map_iff in Hq as (enc & <- & Henc).
      apply filter_In in Henc as [Henc Hok].
      exists enc. repeat split; assumption.
    + apply in_app_or in Hin as [Hin | Hin]; [| not_in_map Hin].
      destruct (keys_uploaded w base_directory re_match_filename);
        [destruct Hin | destruct Hin as [Hin | []]; discriminate].
  - apply in_app_or in Hin as [Hin | Hin];
      [not_in_download Hin | not_in_map Hin].
Qed.

(** X15.  The start of the Glue job is asked for when, and only when, at
    least one upload of the run succeeded. *)
Theorem glue_started_iff_uploaded :
  In GlueStartJobRun
     (trace (process_daily_exports w base_directory re_match_filename))
  <-> keys_uploaded w base_directory re_match_filename <> [].
Proof.
  rewrite process_daily_exports_phases.
  destruct (existsb (decrypts w) (files_downloaded w base_directory))
    eqn:Hany; cbn [trace fst].
  - split.
    + intros Hin.
      apply in_app_or in Hin as [Hin | Hin]; [not_in_download Hin |].
      apply in_app_or in Hin as [Hin | Hin]; [not_in_map Hin |].
      apply in_app_or in Hin as [Hin | Hin].
      { apply list_elem_of_In, list_elem_of_omap in Hin as (q & _ & Hev).
        destruct (s3_key re_match_filename q); discriminate. }
      apply in_app_or in Hin as [Hin | Hin]; [| not_in_map Hin].
      destruct (keys_uploaded w base_directory re_match_filename);
        [destruct Hin | discriminate].
    + intros Hne. apply in_or_app. right. apply in_or_app. right.
      apply in_or_app. right. apply in_or_app. left.
      destruct (keys_uploaded w base_directory re_match_filename);
        [congruence | left; reflexivity].
  - split.
    + intros Hin. apply in_app_or in Hin as [Hin | Hin];
        [not_in_download Hin | not_in_map Hin].
    + intros Hne. exfalso. apply Hne.
      unfold keys_uploaded, files_decrypted.
      apply existsb_filter_nil in Hany. rewrite Hany. reflexivity.
Qed.

(** X16.  The removal of a local file is asked for when, and only when,
    the run succeeds, and then for the downloaded files and their
    plaintexts: a run that stops early leaves its files where they are. *)
Theorem unlinked_iff_success (p : path) :
  In (Unlink p)
     (trace (process_daily_exports w base_directory re_match_filename))
  <-> outcome (process_daily_exports w base_directory re_match_filename)
      = Ret true
      /\ In p (files_downloaded w base_directory
                 ++ files_decrypted w base_directory).
Proof.
  rewrite process_daily_exports_phases.
  destruct (existsb (decrypts w) (files_downloaded w base_directory));
    cbn [trace outcome fst snd].
  - split.
    + intros Hin. split; [reflexivity |].
      apply in_app_or in Hin as [Hin | Hin]; [not_in_download Hin |].
      apply in_app_or in Hin as [Hin | Hin]; [not_in_map Hin |].
      apply in_app_or in Hin as [Hin | Hin].
      { apply list_elem_of_In, list_elem_of_omap in Hin as (q & _ & Hev).
        destruct (s3_key re_match_filename q); discriminate. }
      apply in_app_or in Hin as [Hin | Hin].
      { destruct (keys_uploaded w base_directory re_match_filename);
          [destruct Hin | destruct Hin as [Hin | []]; discriminate]. }
      apply in_map_iff in Hin as (q & [= ->] & Hq). exact Hq.
    + intros [_ Hin]. apply in_or_app. right. apply in_or_app. right.
      apply in_or_app. right. apply in_or_app. right.
      apply in_map. exact Hin.
  - split.
    + intros Hin. apply in_app_or in Hin as [Hin | Hin];
        [not_in_download Hin | not_in_map Hin].
    + intros [Hfalse _]. discriminate.
Qed.

End Phases.

Lemma download_files_table_by_table_witness :
  S3Upload.outcome
    (S3Upload.download_files Samples.world_with_exports "daily_exports"
                             S3Upload.required_tables)
  = S3Upload.Ret
      (flat_map (S3Upload.file_of_table Samples.world_with_exports
                                        "daily_exports")
                S3Upload.required_tables)
  /\ (length
        (flat_map (S3Upload.file_of_table Samples.world_with_exports
                                          "daily_exports")
                  S3Upload.required_tables)
      <= length S3Upload.required_tables)%nat.
Proof.
  apply (download_files_table_by_table Samples.world_with_exports).
  reflexivity.
Defined.

Lemma download_files_only_exports_witness :
  Py.endswith "V_Customer_Export_2024-05-02.csv.gpg" ".csv.gpg" = true
  /\ S3Upload.encrypted_path = S3Upload.encrypted_path.
Proof.
  apply (proj2 (download_files_only_exports
                  Samples.world_with_exports "daily_exports"
                  S3Upload.required_tables)
               [ S3Upload.Path S3Upload.encrypted_path
                               "V_Customer_Export_2024-05-02.csv.gpg";
                 S3Upload.Path S3Upload.encrypted_path
                               "V_Vehicle_Export_2024-05-02.csv.gpg" ]
               (S3Upload.Path S3Upload.encrypted_path
                              "V_Customer_Export_2024-05-02.csv.gpg")).
  - vm_compute. reflexivity.
  - left. reflexivity.
Defined.

Lemma no_decryption_stops_run_witness :
  Forall (fun ev => ~ S3Upload.after_decryption ev)
         (S3Upload.trace
            (S3Upload.process_daily_exports
               Samples.world_gpg_fails "daily_exports"
               Samples.match_export_name)).
Proof.
  apply (no_decryption_stops_run Samples.world_gpg_fails).
  vm_compute. reflexivity.
Defined.

Lemma uploads_only_decrypted_witness :
  exists enc,
    In enc (S3Upload.files_downloaded Samples.world_with_exports
                                      "daily_exports")
    /\ S3Upload.decrypts Samples.world_with_exports enc = true
    /\ S3Upload.Path S3Upload.decrypted_path "V_Customer_Export_2024-05-02.csv"
       = S3Upload.decrypted_file enc
    /\ S3Upload.s3_key
         Samples.match_export_name
         (S3Upload.Path S3Upload.decrypted_path
                        "V_Customer_Export_2024-05-02.csv")
       = Some
           "raw-data/Customer/year=2024/month=05/day=02/V_Customer_Export_2024-05-02.csv"%string.
Proof.
  apply (uploads_only_decrypted Samples.world_with_exports "daily_exports").
  vm_compute. do 19 right. left. reflexivity.
Defined.

Example scenario_E :
  S3Upload.outcome
    (S3Upload.process_daily_exports Samples.world_with_exports
                                    "daily_exports" Samples.match_export_name)
  = S3Upload.Ret true
  /\ S3Upload.keys_uploaded Samples.world_with_exports "daily_exports"
                            Samples.match_export_name
     = [ "raw-data/Customer/year=2024/month=05/day=02/V_Customer_Export_2024-05-02.csv"%string ].
Proof. split; vm_compute; reflexivity. Qed.

(* --------------------------------------------------------------------- *)
(** ** More on the delivery side                                         *)
(* --------------------------------------------------------------------- *)

Section Delivery.
Import Segment.
Variable w : world.

Lemma insert_desc_sorted {A} (key : A -> Z) (x : A) (l : list A) :
  StronglySorted (fun a b => key b <= key a) l ->
  StronglySorted (fun a b => key b <= key a) (Py.insert_desc key x l).
Proof.
  induction 1 as [| y l Hsorted IH Hall]; cbn [Py.insert_desc].
  - repeat constructor.
  - destruct (key y <=? key x) eqn:Hle.
    + apply Z.leb_le in Hle. constructor; [constructor; assumption |].
      constructor; [exact Hle |].
      rewrite Forall_forall in Hall |- *. intros z Hz.
      specialize (Hall z Hz). cbn in Hall. lia.
    + apply Z.leb_gt in Hle. constructor; [exact IH |].
      rewrite Forall_forall in Hall |- *. intros z Hz.
      apply list_elem_of_In, insert_desc_In in Hz as [-> | Hz]; [lia |].
      apply Hall, list_elem_of_In, Hz.
Qed.

Lemma sort_desc_sorted {A} (key : A -> Z) (l : list A) :
  StronglySorted (fun a b => key b <= key a) (Py.sort_desc key l).
Proof.
  induction l as [| x l IH]; [constructor |].
  apply insert_desc_sorted. exact IH.
Qed.

Lemma firstn_sorted {A} (R : A -> A -> Prop) (n : nat) (l : list A) :
  StronglySorted R l -> StronglySorted R (firstn n l).
Proof.
  intros H. revert n. induction H as [| x l Hsorted IH Hall]; intros n.
  - destruct n; constructor.
  - destruct n as [| n]; [constructor |]. cbn. constructor; [apply IH |].
    rewrite Forall_forall in Hall |- *. intros z Hz. apply Hall.
    apply list_elem_of_In. apply list_elem_of_In in Hz.
    apply (In_firstn n), Hz.
Qed.

Lemma query_where_dates
    (start_date end_date : Z) (processed : gset string) (r : sale) :
  Sql.is_true (query_where start_date end_date processed r) = true ->
  exists day, purchase_date r = Some day /\ start_date <= day <= end_date.
Proof.
  unfold query_where. intros Htrue.
  assert (Sql.is_true
            (Sql.and (Sql.le (Some start_date) (purchase_date r))
                     (Sql.le (purchase_date r) (Some end_date))) = true)
    as Hdates.
  { destruct (bool_decide (processed = ∅)); [exact Htrue |].
    apply is_true_and in Htrue as [Hdates _]. exact Hdates. }
  apply is_true_and in Hdates as [Hfrom Hto].
  destruct (purchase_date r) as [day |]; [| discriminate].
  exists day. split; [reflexivity |]. cbn in Hfrom, Hto.
  destruct (start_date <=? day) eqn:H1; [| discriminate].
  destruct (day <=? end_date) eqn:H2; [| discriminate].
  apply Z.leb_le in H1, H2. lia.
Qed.

(** X17.  What the query hands over is bounded and ordered: at most 1000
    rows, each a row of the view whose purchase date lies between the start
    date and the end date (today when none is given), the later purchases
    first. *)
Theorem get_vehicle_sales_events_rows
    (start_date : Z) (end_date : option Z) (exclude_processed : bool)
    (st st' : state) (events : list sale) :
  get_vehicle_sales_events w start_date end_date exclude_processed st
  = (Ret events, st') ->
  (length events <= 1000)%nat
  /\ Forall (in_date_range w start_date (default (today w) end_date)) events
  /\ StronglySorted not_older events.
Proof.
  unfold get_vehicle_sales_events.
  destruct (conn st); cbn [negb]; [| discriminate].
  destruct (if exclude_processed then get_processed_events w st else (∅, st))
    as [processed st1].
  destruct (query_succeeds w); [| discriminate].
  intros [= <- <-]. unfold run_query. split; [apply firstn_le_length |].
  split.
  - apply Forall_forall. intros r Hr.
    apply list_elem_of_In, run_query_In in Hr as [Hview Htrue].
    split; [exact Hview |]. eapply query_where_dates. exact Htrue.
  - apply firstn_sorted.
    apply (sort_desc_sorted (fun r => default 0 (purchase_date r))).
Qed.

Lemma missing_false (field : option string) :
  missing field = false <-> exists v, field = Some v /\ v <> ""%string.
Proof.
  destruct field as [v |]; cbn.
  - rewrite String.eqb_neq. split; [eauto |].
    intros (v' & [= <-] & Hne). exact Hne.
  - split; [discriminate | intros (v & Hv & _); discriminate].
Qed.

Lemma clean_and_validate_event_inv (r : sale) (c : cleaned_event) :
  clean_and_validate_event r = Some c ->
  (deal_number r = Some (ce_deal_number c) /\ ce_deal_number c <> ""%string)
  /\ (user_id r = Some (ce_user_id c) /\ ce_user_id c <> ""%string)
  /\ (vin r = Some (ce_vin c) /\ ce_vin c <> ""%string)
  /\ ce_purchase_date c = purchase_date r
  /\ ce_details c = details r.
Proof.
  unfold clean_and_validate_event.
  destruct (missing (deal_number r)) eqn:Hd; [discriminate |].
  destruct (missing (user_id r)) eqn:Hu; [discriminate |].
  destruct (missing (vin r)) eqn:Hv; [discriminate |]. cbn [orb].
  apply missing_false in Hd as (d & Hd & Hdne).
  apply missing_false in Hu as (u & Hu & Hune).
  apply missing_false in Hv as (v & Hv & Hvne).
  rewrite Hd, Hu, Hv. intros [= <-]. cbn. auto 10.
Qed.


Lemma hex_digit_is_hex (n : Z) :
  Hashlib.is_hex_digit (Hashlib.hex_digit n) = true.
Proof.
  unfold Hashlib.hex_digit.
  do 16 (destruct (Z.to_nat n) as [| k]; [reflexivity |]; clear n;
         set (n := Z.of_nat k); replace k with (Z.to_nat n)
           by (subst n; apply Nat2Z.id); clearbody n; clear k).
  destruct (Z.to_nat n); reflexivity.
Qed.

Lemma hex_of_bytes_is_hex (bs : list Z) :
  Forall (fun c => Hashlib.is_hex_digit c = true)
         (list_ascii_of_string (Hashlib.hex_of_bytes bs)).
Proof.
  induction bs as [| b bs IH]; cbn [Hashlib.hex_of_bytes list_ascii_of_string].
  - constructor.
  - constructor; [apply hex_digit_is_hex |].
    constructor; [apply hex_digit_is_hex | exact IH].
Qed.

(** X19.  The message identifier is [vp_] followed by the digest in
    hexadecimal: 32 characters, each a digit or a letter from [a] to [f];
    the cut at 50 characters never shortens it. *)
Theorem generate_segment_message_id_format (event_data : cleaned_event) :
  exists digest,
    generate_segment_message_id event_data = ("vp_" ++ digest)%string
    /\ String.length digest = 32%nat
    /\ Forall (fun c => Hashlib.is_hex_digit c = true)
              (list_ascii_of_string digest).
Proof.
  eexists. split; [apply generate_segment_message_id_unfold |].
  split; [apply md5_hexdigest_length | apply hex_of_bytes_is_hex].
Qed.

(** X20.  The identifier does not tell the deal number from the VIN when
    they hold an underscore: moving a part from the end of the deal number
    to the front of the VIN gives the same identifier, so two different
    sales can carry one message identifier. *)
Theorem generate_segment_message_id_underscore
    (deal part vin_ : string) (u1 u2 : string) (d1 d2 : option Z)
    (l1 l2 : list (string * option string)) :
  generate_segment_message_id
    (Cleaned (deal ++ "_" ++ part)%string u1 vin_ d1 l1)
  = generate_segment_message_id
      (Cleaned deal u2 (part ++ "_" ++ vin_)%string d2 l2).
Proof.
  unfold generate_segment_message_id. cbn [ce_deal_number ce_vin].
  do 3 f_equal. rewrite !string_app_assoc. reflexivity.
Qed.

(** X21.  The size of the batches has no effect on what the loop does:
    for any two positive batch sizes it ends with the same counters, the
    same events posted in the same order and the same state. *)
Theorem delivery_loop_any_batch_size
    (n m : nat) (events : list sale) (acc : counters * state) :
  (0 < n)%nat -> (0 < m)%nat ->
  delivery_loop w n events acc = delivery_loop w m events acc.
Proof.
  intros Hn Hm. rewrite !delivery_loop_flat by assumption. reflexivity.
Qed.

(** X22.  What is written is what is read back: when neither the write nor
    the read that follows raises, the set read is the set given to
    [mark_events_processed] together with the new identifiers. *)
Theorem mark_then_get_processed_events
    (event_ids : list string) (processed_events : gset string) (st : state) :
  s3_raises w (s3_requests st) = false ->
  s3_raises w (S (s3_requests st)) = false ->
  fst (get_processed_events w
         (mark_events_processed w event_ids processed_events st))
  = processed_events ∪ list_to_set event_ids.
Proof.
  intros Hwrite Hread. unfold mark_events_processed. rewrite Hwrite.
  unfold get_processed_events. cbn [s3_requests s3_request_done bucket].
  rewrite Hread. cbn [fst]. apply list_to_set_elements_L.
Qed.

Lemma process_record_counts (c : counters) (st : state) (r : sale) :
  let c' := fst (process_record w (c, st) r) in
  let st' := snd (process_record w (c, st) r) in
  (successful_count c' + failed_count c'
   = successful_count c + failed_count c + 1)%nat
  /\ (length (processed_event_ids c') + successful_count c
      = length (processed_event_ids c) + successful_count c')%nat
  /\ length (posted st')
     = (length (posted st) + if valid_record r then 1 else 0)%nat
  /\ bucket st' = bucket st /\ s3_requests st' = s3_requests st.
Proof.
  unfold process_record, valid_record, clean_and_validate_event.
  destruct (missing (deal_number r) || missing (user_id r)
            || missing (vin r)) eqn:Hmissing; cbn [negb].
  { cbn. repeat split; lia. }
  destruct (deal_number r) as [d |]; [| discriminate].
  destruct (user_id r) as [u |];
    [| cbn in Hmissing; rewrite orb_true_r in Hmissing; discriminate].
  destruct (vin r) as [v |];
    [| cbn in Hmissing; rewrite !orb_true_r in Hmissing; discriminate].
  cbn [convert_to_segment_track_event]. unfold send_event_to_segment.
  destruct (segment_answers w _ _) as [code |];
    [destruct (code =? 200) |]; cbn; rewrite ?length_app; cbn;
    repeat split; lia.
Qed.

Lemma fold_process_record_counts
    (events : list sale) (c : counters) (st : state) :
  let c' := fst (fold_left (process_record w) events (c, st)) in
  let st' := snd (fold_left (process_record w) events (c, st)) in
  (successful_count c' + failed_count c'
   = successful_count c + failed_count c + length events)%nat
  /\ (length (processed_event_ids c') + successful_count c
      = length (processed_event_ids c) + successful_count c')%nat
  /\ length (posted st')
     = (length (posted st) + length (List.filter valid_record events))%nat
  /\ bucket st' = bucket st /\ s3_requests st' = s3_requests st.
Proof.
  revert c st. induction events as [| r events IH]; intros c st.
  - cbn. repeat split; lia.
  - cbn [fold_left List.filter].
    pose proof (process_record_counts c st r) as (H1 & H2 & H3 & H4 & H5).
    destruct (process_record w (c, st) r) as [c1 st1]. cbn [fst snd] in *.
    pose proof (IH c1 st1) as (I1 & I2 & I3 & I4 & I5). cbv zeta in *.
    destruct (valid_record r); cbn [length];
      repeat split; try lia; congruence.
Qed.

(** X23.  The loop counts every record once, as a success or as a failure;
    it keeps one identifier for each success; and it makes one request to
    Segment for each valid record and none for the others: nothing is sent
    twice. *)
Theorem delivery_loop_counts
    (batch_size : nat) (events : list sale) (c : counters) (st : state) :
  (0 < batch_size)%nat ->
  let c' := fst (delivery_loop w batch_size events (c, st)) in
  let st' := snd (delivery_loop w batch_size events (c, st)) in
  (successful_count c' + failed_count c'
   = successful_count c + failed_count c + length events)%nat
  /\ (length (processed_event_ids c') + successful_count c
      = length (processed_event_ids c) + successful_count c')%nat
  /\ length (posted st')
     = (length (posted st) + length (List.filter valid_record events))%nat.
Proof.
  intros Hpos. rewrite delivery_loop_flat by exact Hpos.
  pose proof (fold_process_record_counts events c st) as (H1 & H2 & H3 & _).
  cbv zeta in *. repeat split; assumption.
Qed.

Lemma get_vehicle_sales_events_query
    (start_date : Z) (st st' : state) (events : list sale) :
  get_vehicle_sales_events w start_date None true st = (Ret events, st') ->
  events
  = run_query w start_date (today w) (fst (get_processed_events w st)).
Proof.
  unfold get_vehicle_sales_events.
  destruct (conn st); cbn [negb]; [| discriminate].
  destruct (get_processed_events w st) as [processed st1].
  destruct (query_succeeds w); [| discriminate].
  intros [= <- _]. reflexivity.
Qed.

Lemma get_processed_events_bucket (st : state) :
  bucket (snd (get_processed_events w st)) = bucket st.
Proof.
  assert (snd (get_processed_events w st) = s3_request_done st) as ->.
  { unfold get_processed_events.
    destruct (s3_raises w _); [reflexivity |].
    destruct (bucket st) as [[ids |] |]; reflexivity. }
  reflexivity.
Qed.

Lemma get_vehicle_sales_events_bucket
    (start_date : Z) (end_date : option Z) (exclude : bool) (st : state) :
  bucket (snd (get_vehicle_sales_events w start_date end_date exclude st))
  = bucket st.
Proof.
  unfold get_vehicle_sales_events.
  destruct (conn st); cbn [negb]; [| reflexivity].
  destruct exclude.
  - pose proof (get_processed_events_bucket st) as Hb.
    destruct (get_processed_events w st) as [processed st1].
    destruct (query_succeeds w); exact Hb.
  - destruct (query_succeeds w); reflexivity.
Qed.

Lemma slice_to_length {A} (m : Z) (l : list A) :
  (length (Py.slice_to m l) <= length l)%nat.
Proof.
  unfold Py.slice_to. destruct (0 <=? m); rewrite length_take; lia.
Qed.

(** An invocation in short: the events it treats come from the query of
    the invocation, the loop runs over them when the batch size is
    positive, and the stored object is updated from the counters. *)
Lemma process_body_summary
    (start_date batch_size : Z) (max_events : option Z) (st : state) :
  exists (events : list sale) (st1 : state),
    bucket st1 = bucket st
    /\ posted st1 = posted st
    /\ (forall r, In r events ->
          In r (run_query w start_date (today w)
                          (fst (get_processed_events w st))))
    /\ (length events <= 1000)%nat
    /\ (forall m, max_events = Some m -> 0 < m ->
          (length events <= Z.to_nat m)%nat)
    /\ let acc :=
         if 0 <? batch_size
         then fold_left (process_record w) events (Counters 0 0 [], st1)
         else (Counters 0 0 [], st1) in
       snd (process_body w start_date batch_size max_events st)
       = commit w (fst acc) (snd acc)
       /\ forall t s f n,
            fst (process_body w start_date batch_size max_events st)
            = Ret (ProcessingComplete t s f n) ->
            t = length events /\ s = successful_count (fst acc)
            /\ f = failed_count (fst acc)
            /\ n = length (processed_event_ids (fst acc)).
Proof.
  assert (forall st1 : state,
             bucket st1 = bucket st -> posted st1 = posted st ->
             forall r st',
               (forall t s f n, r <> Ret (ProcessingComplete t s f n)) ->
               st' = st1 ->
               exists (events : list sale) (st1 : state),
                 bucket st1 = bucket st
                 /\ posted st1 = posted st
                 /\ (forall r, In r events ->
                       In r (run_query w start_date (today w)
                                       (fst (get_processed_events w st))))
                 /\ (length events <= 1000)%nat
                 /\ (forall m, max_events = Some m -> 0 < m ->
                       (length events <= Z.to_nat m)%nat)
                 /\ let acc :=
                      if 0 <? batch_size
                      then fold_left (process_record w) events
                                     (Counters 0 0 [], st1)
                      else (Counters 0 0 [], st1) in
                    st' = commit w (fst acc) (snd acc)
                    /\ forall t s f n,
                         r = Ret (ProcessingComplete t s f n) ->
                         t = length events
                         /\ s = successful_count (fst acc)
                         /\ f = failed_count (fst acc)
                         /\ n = length (processed_event_ids (fst acc)))
    as Hearly.
  { intros st1 Hb Hp r st' Hr ->. exists [], st1.
    split; [exact Hb |]. split; [exact Hp |]. split; [intros ? [] |].
    split; [cbn; lia |]. split; [intros; cbn; lia |].
    cbn [fold_left]. destruct (0 <? batch_size); cbn [fst snd].
    - split; [reflexivity |]. intros t s f n E. destruct (Hr t s f n E).
    - split; [reflexivity |]. intros t s f n E. destruct (Hr t s f n E). }
  unfold process_body, connect_to_redshift.
  destruct (redshift_connects w); cbn [negb];
    [| apply (Hearly st eq_refl eq_refl); [discriminate | reflexivity]].
  set (st_c := State (bucket st) (s3_requests st) (posted st) true).
  pose proof (get_vehicle_sales_events_query start_date st_c) as Hquery.
  pose proof (get_vehicle_sales_events_posted w start_date None true st_c) as Hp.
  pose proof (get_vehicle_sales_events_bucket start_date None true st_c) as Hb.
  destruct (get_vehicle_sales_events w start_date None true st_c)
    as [[events |] st1]; cbn [snd] in Hp, Hb;
    [| apply (Hearly st1 Hb Hp); [discriminate | reflexivity]].
  destruct events as [| e events];
    [apply (Hearly st1 Hb Hp); [discriminate | reflexivity] |].
  specialize (Hquery st1 (e :: events) eq_refl).
  unfold st_c in Hquery. rewrite get_processed_events_conn in Hquery.
  set (events2 := match max_events with Some _ => _ | None => _ end).
  assert (forall x, In x events2 -> In x (e :: events)) as Hincl.
  { subst events2. destruct max_events as [m |]; [| tauto].
    destruct (_ && _); [intros x; apply slice_to_In | tauto]. }
  assert (length events2 <= length (e :: events))%nat as Hlen.
  { subst events2. destruct max_events as [m |]; [| lia].
    destruct (_ && _); [apply slice_to_length | lia]. }
  assert (length (e :: events) <= 1000)%nat as Hlimit.
  { rewrite Hquery. unfold run_query. apply firstn_le_length. }
  assert (forall m, max_events = Some m -> 0 < m ->
            (length events2 <= Z.to_nat m)%nat) as Hmax.
  { intros m -> Hm. subst events2. cbv beta iota.
    destruct (m <? Z.of_nat (length (e :: events))) eqn:Hlt.
    - replace (negb (m =? 0)) with true
        by (symmetry; apply negb_true_iff, Z.eqb_neq; lia).
      cbn [andb]. unfold Py.slice_to.
      replace (0 <=? m) with true by (symmetry; apply Z.leb_le; lia).
      apply firstn_le_length.
    - rewrite andb_false_r. apply Z.ltb_ge in Hlt. lia. }
  clearbody events2.
  destruct (Z.compare_spec batch_size 0) as [Heq | Hlt | Hgt].
  - apply (Hearly st1 Hb Hp); [discriminate | reflexivity].
  - exists events2, st1.
    split; [exact Hb |]. split; [exact Hp |].
    split; [intros r Hr; rewrite <- Hquery; apply Hincl, Hr |].
    split; [lia |]. split; [exact Hmax |].
    replace (0 <? batch_size) with false by (symmetry; apply Z.ltb_ge; lia).
    cbn [fst snd processed_event_ids commit].
    destruct events2 as [| e2 rest2]; cbn [fst snd];
      (split; [reflexivity |]); [discriminate |].
    intros t s f n [= <- <- <- <-]. repeat split.
  - exists events2, st1.
    split; [exact Hb |]. split; [exact Hp |].
    split; [intros r Hr; rewrite <- Hquery; apply Hincl, Hr |].
    split; [lia |]. split; [exact Hmax |].
    replace (0 <? batch_size) with true by (symmetry; apply Z.ltb_lt; lia).
    rewrite delivery_loop_flat by lia.
    destruct (fold_left (process_record w) events2 (Counters 0 0 [], st1))
      as [c2 st2]. cbn [fst snd]. unfold commit.
    destruct events2 as [| e2 rest2]; cbn [fst snd];
      (split; [reflexivity |]); [discriminate |].
    intros t s f n [= <- <- <- <-]. repeat split.
Qed.

Lemma process_vehicle_purchase_events_eq
    (start_date batch_size : Z) (max_events : option Z) (st : state) :
  process_vehicle_purchase_events w start_date batch_size max_events st
  = (match fst (process_body w start_date batch_size max_events st) with
     | Ret r => r
     | Raise => ServerError
     end,
     close_redshift_connection
       (snd (process_body w start_date batch_size max_events st))).
Proof.
  unfold process_vehicle_purchase_events.
  destruct (process_body w start_date batch_size max_events st) as [[r |] st'];
    reflexivity.
Qed.

(** X24.  The report of an invocation adds up: with a positive batch size,
    the successes and the failures it states make the total of events, of
    which there are at most 1000, and it states as many identifiers marked
    as successes. *)
Theorem processing_complete_adds_up
    (start_date batch_size : Z) (max_events : option Z) (st : state)
    (total successful failed ids : nat) :
  0 < batch_size ->
  fst (process_vehicle_purchase_events w start_date batch_size max_events st)
  = ProcessingComplete total successful failed ids ->
  (successful + failed = total)%nat
  /\ ids = successful
  /\ (total <= 1000)%nat.
Proof.
  intros Hpos. rewrite process_vehicle_purchase_events_eq. cbn [fst].
  destruct (process_body_summary start_date batch_size max_events st)
    as (events & st1 & _ & _ & _ & Hlimit & _ & _ & Hreport).
  destruct (fst (process_body w start_date batch_size max_events st))
    as [r |]; [| discriminate].
  intros ->. destruct (Hreport _ _ _ _ eq_refl) as (-> & -> & -> & ->).
  replace (0 <? batch_size) with true by (symmetry; apply Z.ltb_lt; lia).
  pose proof (fold_process_record_counts events (Counters 0 0 []) st1)
    as (H1 & H2 & _).
  cbv zeta in H1, H2. cbn [successful_count failed_count processed_event_ids
                           length] in H1, H2.
  repeat split; lia.
Qed.

Lemma process_record_sends (c : counters) (st : state) (r : sale) :
  forall ev, In ev (posted (snd (process_record w (c, st) r))) ->
    In ev (posted st)
    \/ exists cleaned,
         clean_and_validate_event r = Some cleaned
         /\ convert_to_segment_track_event cleaned = Some ev.
Proof.
  unfold process_record. intros ev.
  destruct (clean_and_validate_event r) as [cleaned |]; [| cbn; tauto].
  cbn [convert_to_segment_track_event]. unfold send_event_to_segment.
  set (ev0 := SegmentEvent _ _ _ _ _ _).
  assert (In ev (posted st ++ [ev0]) ->
          In ev (posted st)
          \/ exists cleaned0, Some cleaned = Some cleaned0
                              /\ convert_to_segment_track_event cleaned0
                                 = Some ev) as Hnew.
  { intros Hin. apply in_app_or in Hin as [Hold | [<- | []]];
      [left; exact Hold | right].
    exists cleaned. split; reflexivity. }
  destruct (segment_answers w _ ev0) as [code |];
    [destruct (code =? 200) |]; exact Hnew.
Qed.

Lemma fold_process_record_sends
    (events : list sale) (c : counters) (st : state) :
  forall ev,
    In ev (posted (snd (fold_left (process_record w) events (c, st)))) ->
    In ev (posted st)
    \/ exists r cleaned,
         In r events
         /\ clean_and_validate_event r = Some cleaned
         /\ convert_to_segment_track_event cleaned = Some ev.
Proof.
  revert c st. induction events as [| r events IH]; intros c st ev.
  - cbn. tauto.
  - cbn [fold_left].
    pose proof (process_record_sends c st r ev) as Hfirst.
    destruct (process_record w (c, st) r) as [c1 st1]. cbn [snd] in Hfirst.
    intros Hin. destruct (IH c1 st1 ev Hin) as [Hin1 | (r' & cl & Hr & H)].
    + destruct (Hfirst Hin1) as [Hold | (cl & Hcl & Hev)];
        [left; exact Hold | right].
      exists r, cl. split; [left; reflexivity | split; assumption].
    + right. exists r', cl. split; [right; exact Hr | exact H].
Qed.

Lemma commit_posted' (c : counters) (st : state) :
  posted (commit w c st) = posted st.
Proof.
  unfold commit. destruct (processed_event_ids c) as [| i ids];
    [reflexivity |].
  pose proof (get_processed_events_posted w st) as Hp.
  destruct (get_processed_events w st) as [processed st0].
  rewrite mark_events_processed_posted. exact Hp.
Qed.

(** The posts of an invocation are the events built from records of its
    query. *)
Lemma process_vehicle_purchase_events_sends
    (start_date batch_size : Z) (max_events : option Z) (st : state)
    (ev : segment_event) :
  In ev (posted (snd (process_vehicle_purchase_events
                        w start_date batch_size max_events st))) ->
  In ev (posted st)
  \/ exists r cleaned,
       In r (run_query w start_date (today w)
                       (fst (get_processed_events w st)))
       /\ clean_and_validate_event r = Some cleaned
       /\ convert_to_segment_track_event cleaned = Some ev.
Proof.
  rewrite process_vehicle_purchase_events_eq.
  cbn [snd posted close_redshift_connection].
  destruct (process_body_summary start_date batch_size max_events st)
    as (events & st1 & _ & Hposted & Hquery & _ & _ & -> & _).
  rewrite commit_posted'.
  destruct (0 <? batch_size); cbn [snd];
    [| rewrite Hposted; left; assumption].
  intros Hin.
  destruct (fold_process_record_sends events _ st1 ev Hin)
    as [Hold | (r & cl & Hr & Hcl & Hev)].
  - left. rewrite <- Hposted. exact Hold.
  - right. exists r, cl. split; [apply Hquery, Hr | split; assumption].
Qed.

(** X25.  Every event that an invocation of the handler posts is built
    from a valid record of its query: deal number, user id and VIN are not
    empty, the message identifier is the one of the deal number and the
    VIN, and the timestamp is noon of the purchase day, which lies between
    the start date (yesterday by default) and today; the current time is
    never used. *)
Theorem lambda_handler_posts_well_formed
    (event : lambda_event) (st : state) (ev : segment_event) :
  In ev (posted (snd (lambda_handler w event st))) ->
  In ev (posted st)
  \/ well_formed_event (default (today w - 1) (param_start_date event))
                       (today w) ev.
Proof.
  unfold lambda_handler. intros Hin.
  apply process_vehicle_purchase_events_sends in Hin
    as [Hold | (r & cl & Hr & Hcl & Hev)]; [left; exact Hold | right].
  apply run_query_In in Hr as [_ Hwhere].
  apply query_where_dates in Hwhere as (day & Hday & Hrange).
  apply clean_and_validate_event_inv in Hcl
    as ((_ & Hd) & (_ & Hu) & (_ & Hv) & Hp & _).
  cbn [convert_to_segment_track_event] in Hev. injection Hev as <-.
  unfold well_formed_event.
  cbn [prop_deal_number userId prop_vin messageId event_timestamp].
  split; [exact Hd |]. split; [exact Hu |]. split; [exact Hv |].
  split; [apply generate_segment_message_id_unfold |].
  exists day. rewrite Hp, Hday. split; [reflexivity | exact Hrange].
Qed.

Lemma process_record_no_success (c : counters) (st : state) (r : sale) :
  (forall n ev, segment_answers w n ev <> Status 200) ->
  processed_event_ids (fst (process_record w (c, st) r))
  = processed_event_ids c.
Proof.
  intros Hnone. unfold process_record.
  destruct (clean_and_validate_event r) as [cleaned |]; [| reflexivity].
  cbn [convert_to_segment_track_event]. unfold send_event_to_segment.
  set (ev0 := SegmentEvent _ _ _ _ _ _).
  destruct (segment_answers w (length (posted st)) ev0) as [code |] eqn:Ha;
    [| reflexivity].
  destruct (code =? 200) eqn:Hcode; [| reflexivity].
  apply Z.eqb_eq in Hcode. subst code. destruct (Hnone _ _ Ha).
Qed.

Lemma fold_process_record_no_success
    (events : list sale) (c : counters) (st : state) :
  (forall n ev, segment_answers w n ev <> Status 200) ->
  processed_event_ids (fst (fold_left (process_record w) events (c, st)))
  = processed_event_ids c.
Proof.
  intros Hnone. revert c st.
  induction events as [| r events IH]; intros c st; [reflexivity |].
  cbn [fold_left].
  pose proof (process_record_no_success c st r Hnone) as Hfirst.
  destruct (process_record w (c, st) r) as [c1 st1]. cbn [fst] in Hfirst.
  rewrite IH. exact Hfirst.
Qed.

(** X26.  Without a delivery there is no write: when Segment answers
    status 200 to none of the requests, the stored object is after the
    invocation what it was before, so that every record is a candidate
    again on the next run. *)
Theorem no_success_no_write
    (start_date batch_size : Z) (max_events : option Z) (st : state) :
  (forall n ev, segment_answers w n ev <> Status 200) ->
  bucket (snd (process_vehicle_purchase_events
                 w start_date batch_size max_events st))
  = bucket st.
Proof.
  intros Hnone. rewrite process_vehicle_purchase_events_eq.
  cbn [snd bucket close_redshift_connection].
  destruct (process_body_summary start_date batch_size max_events st)
    as (events & st1 & Hbucket & _ & _ & _ & _ & -> & _).
  destruct (0 <? batch_size); cbn [fst snd]; [| exact Hbucket].
  pose proof (fold_process_record_no_success events (Counters 0 0 []) st1
                                             Hnone) as Hids.
  pose proof (fold_process_record_counts events (Counters 0 0 []) st1)
    as (_ & _ & _ & Hb & _).
  destruct (fold_left (process_record w) events (Counters 0 0 [], st1))
    as [c2 st2]. cbn [fst snd processed_event_ids] in *.
  unfold commit. rewrite Hids. congruence.
Qed.

(** X27.  When no request to S3 raises and the stored object is readable,
    the delivered set only grows, and it grows by deliveries only: every
    identifier stored before the invocation is stored after it, and every
    identifier stored after it was stored before or is the deal number of
    an event that Segment answered with status 200. *)
Theorem stored_ids_grow
    (start_date batch_size : Z) (max_events : option Z) (st : state) :
  (forall n, s3_raises w n = false) ->
  bucket st <> Some NotJson ->
  let st' :=
    snd (process_vehicle_purchase_events
           w start_date batch_size max_events st) in
  stored_ids st ⊆ stored_ids st'
  /\ forall id, id ∈ stored_ids st' ->
       id ∈ stored_ids st \/ delivered w st' id.
Proof.
  intros Hs3 Hjson st'. subst st'.
  rewrite process_vehicle_purchase_events_eq. cbn [snd].
  destruct (process_body_summary start_date batch_size max_events st)
    as (events & st1 & Hbucket & _ & _ & _ & _ & -> & _).
  assert (forall st0, stored_ids (close_redshift_connection st0)
                      = stored_ids st0) as Hclose by reflexivity.
  assert (forall st0 id, delivered w st0 id ->
                         delivered w (close_redshift_connection st0) id)
    as Hclosed by (intros st0 id H; exact H).
  rewrite Hclose.
  assert (stored_ids st1 = stored_ids st) as Hstored1
    by (unfold stored_ids; rewrite Hbucket; reflexivity).
  destruct (0 <? batch_size); cbn [fst snd commit processed_event_ids];
    [| rewrite Hstored1; split; [reflexivity | intros; left; assumption]].
  pose proof (fold_process_record_counts events (Counters 0 0 []) st1)
    as (_ & _ & _ & Hb & _).
  pose proof (fold_process_record_delivered w events (Counters 0 0 []) st1)
    as [_ Hdelivered].
  destruct (fold_left (process_record w) events (Counters 0 0 [], st1))
    as [c2 st2]. cbn [fst snd processed_event_ids] in *.
  assert (stored_ids st2 = stored_ids st) as Hstored2
    by (unfold stored_ids; rewrite Hb, Hbucket; reflexivity).
  unfold commit. destruct (processed_event_ids c2) as [| i ids] eqn:Hids.
  - rewrite Hstored2. split; [reflexivity | intros; left; assumption].
  - pose proof (commit_stores_union w (i :: ids) st2 (Hs3 _) (Hs3 _)) as Hunion.
    pose proof (get_processed_events_posted w st2) as Hposted.
    destruct (get_processed_events w st2) as [processed st0].
    cbn [fst snd] in Hunion, Hposted.
    rewrite Hunion by (rewrite Hb, Hbucket; exact Hjson).
    rewrite Hstored2. split; [apply union_subseteq_l |].
    intros id Hid. apply elem_of_union in Hid as [Hold | Hnew];
      [left; exact Hold | right].
    apply elem_of_list_to_set, list_elem_of_In in Hnew.
    destruct (Hdelivered id Hnew) as [[] | Hd].
    apply Hclosed.
    apply (delivered_mono w st2 _ []); [| exact Hd].
    rewrite mark_events_processed_posted, Hposted, app_nil_r. reflexivity.
Qed.

(** X28.  An invocation posts at most 1000 events, and at most
    [max_events] when a positive bound is given. *)
Theorem posts_bounded
    (start_date batch_size : Z) (max_events : option Z) (st : state) :
  let st' :=
    snd (process_vehicle_purchase_events
           w start_date batch_size max_events st) in
  (length (posted st') <= length (posted st) + 1000)%nat
  /\ forall m, max_events = Some m -> 0 < m ->
       (length (posted st') <= length (posted st) + Z.to_nat m)%nat.
Proof.
  cbv zeta. rewrite process_vehicle_purchase_events_eq.
  cbn [snd posted close_redshift_connection].
  destruct (process_body_summary start_date batch_size max_events st)
    as (events & st1 & _ & Hposted & _ & Hlimit & Hmax & -> & _).
  rewrite commit_posted'.
  assert (length
            (posted
               (snd (if (0 <? batch_size)%Z
                     then fold_left (process_record w) events
                                    (Counters 0 0 [], st1)
                     else (Counters 0 0 [], st1))))
          <= length (posted st) + length events)%nat as Hcount.
  { destruct (0 <? batch_size); cbn [snd]; [| rewrite Hposted; lia].
    pose proof (fold_process_record_counts events (Counters 0 0 []) st1)
      as (_ & _ & Hp & _).
    cbv zeta in Hp. rewrite Hp, Hposted.
    pose proof (filter_length_le valid_record events). lia. }
  split; [lia |]. intros m Hm Hpos. specialize (Hmax m Hm Hpos). lia.
Qed.

(** X29.  A batch size of zero or less sends nothing: no event is posted
    and the stored object is left as it is; and when such an invocation
    reports completion, it reports no success and no failure for the
    events it counts. *)
Theorem no_positive_batch_size_no_delivery
    (start_date batch_size : Z) (max_events : option Z) (st : state) :
  batch_size <= 0 ->
  let run :=
    process_vehicle_purchase_events w start_date batch_size max_events st in
  posted (snd run) = posted st
  /\ bucket (snd run) = bucket st
  /\ forall total successful failed ids,
       fst run = ProcessingComplete total successful failed ids ->
       successful = O /\ failed = O /\ ids = O.
Proof.
  intros Hle run. subst run. rewrite process_vehicle_purchase_events_eq.
  cbn [fst snd posted bucket close_redshift_connection].
  destruct (process_body_summary start_date batch_size max_events st)
    as (events & st1 & Hbucket & Hposted & _ & _ & _ & -> & Hreport).
  replace (0 <? batch_size) with false in *
    by (symmetry; apply Z.ltb_ge; lia).
  cbn [fst snd commit processed_event_ids] in *.
  split; [exact Hposted |]. split; [exact Hbucket |].
  intros total successful failed ids Hrun.
  destruct (fst (process_body w start_date batch_size max_events st))
    as [r |]; [| discriminate].
  subst r. destruct (Hreport _ _ _ _ eq_refl) as (_ & -> & -> & ->).
  repeat split.
Qed.

End Delivery.

Lemma redshift_load_twice_witness :
  GlueEtl.redshift_load
    [Samples.sale_1] (GlueEtl.Database (Some [Samples.sale_1]) None)
  = Some (GlueEtl.Database (Some [Samples.sale_1]) None).
Proof.
  apply (redshift_load_twice [Samples.sale_1] Samples.no_tables).
  - repeat constructor; cbn; eauto.
  - vm_compute. reflexivity.
Defined.

Lemma get_vehicle_sales_events_rows_witness :
  (length [Samples.sale_B] <= 1000)%nat
  /\ Forall (Segment.in_date_range
               Samples.world_A_and_B 0
               (default (Segment.today Samples.world_A_and_B) None))
            [Samples.sale_B]
  /\ StronglySorted Segment.not_older [Samples.sale_B].
Proof.
  apply (get_vehicle_sales_events_rows
           Samples.world_A_and_B 0 None true
           (Segment.State (Some (Segment.JsonArray ["A"%string])) 0 [] true)
           (Segment.State (Some (Segment.JsonArray ["A"%string])) 1 [] true)).
  vm_compute. reflexivity.
Defined.

Lemma delivery_loop_any_batch_size_witness :
  Segment.delivery_loop
    Samples.world_one_new_sale 1
    [Samples.sale_B; Samples.sale_without_deal_number; Samples.sale_A]
    (Segment.Counters 0 0 [], Samples.state_A_delivered)
  = Segment.delivery_loop
      Samples.world_one_new_sale 100
      [Samples.sale_B; Samples.sale_without_deal_number; Samples.sale_A]
      (Segment.Counters 0 0 [], Samples.state_A_delivered).
Proof.
  apply delivery_loop_any_batch_size; lia.
Defined.

Lemma mark_then_get_processed_events_witness :
  fst (Segment.get_processed_events
         Samples.world_one_new_sale
         (Segment.mark_events_processed
            Samples.world_one_new_sale ["B"%string] {["A"%string]}
            Samples.state_A_delivered))
  = {["A"%string]} ∪ list_to_set ["B"%string].
Proof.
  apply mark_then_get_processed_events; reflexivity.
Defined.

Lemma delivery_loop_counts_witness :
  let c' :=
    fst (Segment.delivery_loop
           Samples.world_one_new_sale 100
           [Samples.sale_B; Samples.sale_without_deal_number]
           (Segment.Counters 0 0 [], Samples.state_A_delivered)) in
  let st' :=
    snd (Segment.delivery_loop
           Samples.world_one_new_sale 100
           [Samples.sale_B; Samples.sale_without_deal_number]
           (Segment.Counters 0 0 [], Samples.state_A_delivered)) in
  (Segment.successful_count c' + Segment.failed_count c'
   = Segment.successful_count (Segment.Counters 0 0 [])
     + Segment.failed_count (Segment.Counters 0 0 [])
     + length [Samples.sale_B; Samples.sale_without_deal_number])%nat
  /\ (length (Segment.processed_event_ids c')
      + Segment.successful_count (Segment.Counters 0 0 [])
      = length (Segment.processed_event_ids (Segment.Counters 0 0 []))
        + Segment.successful_count c')%nat
  /\ length (Segment.posted st')
     = (length (Segment.posted Samples.state_A_delivered)
        + length (List.filter
                    Segment.valid_record
                    [Samples.sale_B; Samples.sale_without_deal_number]))%nat.
Proof.
  apply (delivery_loop_counts Samples.world_one_new_sale). lia.
Defined.

Lemma processing_complete_adds_up_witness :
  (1 + 0 = 1)%nat /\ 1%nat = 1%nat /\ (1 <= 1000)%nat.
Proof.
  apply (processing_complete_adds_up
           Samples.world_one_new_sale 0 100 None Samples.state_A_delivered).
  - lia.
  - vm_compute. reflexivity.
Defined.

Lemma lambda_handler_posts_well_formed_witness :
  In (Segment.SegmentEvent "vp_e3011cdae2264602ca3377c85fc3087e" "U2"
                           (Segment.NoonOf 19800) "B" "V2" [])
     (Segment.posted Samples.state_A_delivered)
  \/ Segment.well_formed_event
       (default (Segment.today Samples.world_one_new_sale - 1)
                (Segment.param_start_date (Segment.LambdaEvent None None None)))
       (Segment.today Samples.world_one_new_sale)
       (Segment.SegmentEvent "vp_e3011cdae2264602ca3377c85fc3087e" "U2"
                             (Segment.NoonOf 19800) "B" "V2" []).
Proof.
  apply (lambda_handler_posts_well_formed Samples.world_one_new_sale).
  vm_compute. left. reflexivity.
Defined.

Lemma no_success_no_write_witness :
  Segment.bucket
    (snd (Segment.process_vehicle_purchase_events
            Samples.world_segment_down 0 100 None Samples.state_A_delivered))
  = Segment.bucket Samples.state_A_delivered.
Proof.
  apply no_success_no_write. intros n ev. discriminate.
Defined.

Lemma stored_ids_grow_witness :
  let st' :=
    snd (Segment.process_vehicle_purchase_events
           Samples.world_one_new_sale 0 100 None Samples.state_A_delivered) in
  Segment.stored_ids Samples.state_A_delivered ⊆ Segment.stored_ids st'
  /\ forall id, id ∈ Segment.stored_ids st' ->
       id ∈ Segment.stored_ids Samples.state_A_delivered
       \/ Segment.delivered Samples.world_one_new_sale st' id.
Proof.
  apply (stored_ids_grow Samples.world_one_new_sale);
    [reflexivity | discriminate].
Defined.

Lemma no_positive_batch_size_no_delivery_witness :
  let run :=
    Segment.process_vehicle_purchase_events
      Samples.world_one_new_sale 0 (-5) None Samples.state_A_delivered in
  Segment.posted (snd run) = Segment.posted Samples.state_A_delivered
  /\ Segment.bucket (snd run) = Segment.bucket Samples.state_A_delivered
  /\ forall total successful failed ids,
       fst run = Segment.ProcessingComplete total successful failed ids ->
       successful = O /\ failed = O /\ ids = O.
Proof.
  apply (no_positive_batch_size_no_delivery Samples.world_one_new_sale). lia.
Defined.

Example negative_batch_size_reports_completion :
  fst (Segment.process_vehicle_purchase_events
         Samples.world_one_new_sale 0 (-5) None Samples.state_A_delivered)
  = Segment.ProcessingComplete 1 0 0 0.
Proof. vm_compute. reflexivity. Qed.
